(** * A shallow embedding of the telegram-socks5 proxy

    The development follows the two Python modules of the repository:

    - [src/main.py]: the rate limiter ([RateLimiter.is_allowed]), the
      authentication manager, the SOCKS5 engine ([handle_client],
      [_handle_socks5_handshake], [_handle_authentication],
      [_handle_socks5_request]) and the domain filter
      ([_is_telegram_address]);
    - [src/bypass_server.py]: the traffic obfuscator
      ([TrafficObfuscator.obfuscate] / [deobfuscate]) and the port hopper
      ([PortHopper.hop_to_new_port]).

    Python [bytes] are lists of [byte], Python [str] values are [string]s,
    dictionaries are [gmap]s and sets are [gset]s.  Socket input is an
    explicit list of the chunks that the successive [reader.read] calls
    return, socket output is an explicit trace of events. *)

From stdpp Require Import gmap strings list fin_maps pretty.
From Stdlib Require Import ZArith Lia Bool Sorted.
From Stdlib Require Import Strings.Byte Strings.Ascii.

Open Scope string_scope.
Open Scope list_scope.

(* ===================================================================== *)
(** * Part I: definitions                                                 *)
(* ===================================================================== *)

(** ** Python values *)

Abbreviation bytes := (list byte).

#[global] Instance byte_eq_decision : EqDecision byte := Byte.byte_eq_dec.

(** [data[i]] as an unsigned integer; the callers check the length first. *)
Definition u8 (data : bytes) (i : nat) : nat := Byte.to_nat (nth i data x00).

(** [data[i:j]] for non-negative indices. *)
Definition slice {A} (data : list A) (i j : nat) : list A :=
  firstn (j - i) (skipn i data).

(** [struct.pack('!B', n)], [struct.pack('!H', n)] and [struct.pack('!I', n)]
    (network byte order) for values in range. *)
Definition pack_B (n : N) : bytes := [default x00 (Byte.of_N n)].

Definition pack_H (n : N) : bytes :=
  pack_B (n / 256)%N ++ pack_B (n mod 256)%N.

Definition pack_I (n : N) : bytes :=
  pack_H (n / 65536)%N ++ pack_H (n mod 65536)%N.

(** [struct.unpack('!H', data[i:i+2])[0]]. *)
Definition unpack_H (data : bytes) (i : nat) : nat :=
  256 * u8 data i + u8 data (i + 1).

(** [s.startswith(p)], [s.endswith(p)] and [sub in s] on [str]. *)
Definition startswith (s p : string) : bool := String.prefix p s.

Fixpoint endswith (s p : string) : bool :=
  String.eqb s p ||
  match s with
  | EmptyString => false
  | String _ s' => endswith s' p
  end.

Fixpoint contains (s sub : string) : bool :=
  String.prefix sub s ||
  match s with
  | EmptyString => false
  | String _ s' => contains s' sub
  end.

(** ** The platform library

    The functions of the Python standard library that the proxy calls and
    whose code is not part of the repository.  An [ipaddress] address is its
    version and integer value, a network is its version, network address and
    netmask. *)

Inductive ip_version := IPv4 | IPv6.

Record ip_addr := IpAddr { ip_ver : ip_version; ip_int : N }.

Record ip_net := IpNet { net_ver : ip_version; network_address : N; netmask : N }.

#[global] Instance ip_version_eq_dec : EqDecision ip_version.
Proof. solve_decision. Defined.

(** [ip in network] ([_BaseNetwork.__contains__]): false across versions,
    otherwise a mask comparison. *)
Definition ip_in_network (ip : ip_addr) (network : ip_net) : bool :=
  if decide (ip_ver ip = net_ver network)
  then N.eqb (N.land (ip_int ip) (netmask network)) (network_address network)
  else false.

Class Platform := {
  (** [ipaddress.ip_address(s)]; [None] for [ValueError]. *)
  ip_address : string -> option ip_addr;
  (** [ipaddress.ip_network(s, strict=False)]; [None] for [ValueError]. *)
  ip_network : string -> option ip_net;
  (** [data.decode('utf-8', errors='ignore')]. *)
  decode_utf8_ignore : bytes -> string;
  (** [socket.inet_ntop(socket.AF_INET6, data)]. *)
  inet_ntop6 : bytes -> string;
  (** [hashlib.sha256(s.encode()).hexdigest()]. *)
  sha256_hexdigest : string -> string;
}.

(** [socket.inet_ntoa(data)] for four bytes: dotted decimal. *)
Definition inet_ntoa (data : bytes) : string :=
  pretty (u8 data 0) +:+ "." +:+ pretty (u8 data 1) +:+ "." +:+
  pretty (u8 data 2) +:+ "." +:+ pretty (u8 data 3).

(** ** Configuration ([ProxyConfig]) *)

Record ProxyConfig := {
  rate_limit_per_ip : Z;
  rate_limit_window : Z;
  auth_required : bool;
  telegram_domains : gset string;
}.

(** The allow set that [ProxyConfig.__post_init__] installs. *)
Definition default_telegram_domains : gset string :=
  {[ "api.telegram.org"; "core.telegram.org"; "web.telegram.org";
     "desktop.telegram.org"; "updates.tdesktop.com";
     "149.154.160.0/20"; "91.108.4.0/22"; "91.108.8.0/22";
     "91.108.12.0/22"; "91.108.16.0/22"; "91.108.20.0/22";
     "91.108.56.0/22"; "149.154.160.0/20"; "149.154.164.0/22";
     "149.154.168.0/22"; "149.154.172.0/22" ]}.

Definition default_config : ProxyConfig := {|
  rate_limit_per_ip := 15;
  rate_limit_window := 60;
  auth_required := true;
  telegram_domains := default_telegram_domains;
|}.

(** ** The domain filter ([SOCKS5Server._is_telegram_address]) *)

Section DomainFilter.
Context `{Platform}.

(** The subdomain loop: [not domain.startswith('*.') and
    addr.endswith('.' + domain)]. *)
Definition subdomain_match (addr domain : string) : bool :=
  negb (startswith domain "*.") && endswith addr ("." +:+ domain).

(** The body of the CIDR loop for one entry; a [ValueError] of
    [ip_network] continues with the next entry. *)
Definition cidr_match (ip : ip_addr) (cidr : string) : bool :=
  if contains cidr "/" then
    match ip_network cidr with
    | Some network => ip_in_network ip network
    | None => false
    end
  else false.

Definition _is_telegram_address (config : ProxyConfig) (addr : string) : bool :=
  if bool_decide (addr ∈ telegram_domains config) then true
  else if existsb (subdomain_match addr) (elements (telegram_domains config))
  then true
  else
    match ip_address addr with
    | Some ip =>
        if existsb (cidr_match ip) (elements (telegram_domains config))
        then true else false
    | None => false
    end.

End DomainFilter.

(** ** The rate limiter ([RateLimiter]) and the metrics it touches

    A [RateLimiter] is built with its two settings; what changes while the
    server runs is kept in a [ServerState]: [requests], the
    [defaultdict(deque)] of admission times per source address, and the
    module-level counters [RATE_LIMIT_HITS] and [CONNECTION_COUNTER].
    [time.time()] is passed in as [now]. *)

Record RateLimiter := {
  max_requests : Z;
  window_seconds : Z;
}.

(** [RateLimiter(config.rate_limit_per_ip, config.rate_limit_window)] in
    [SOCKS5Server.__init__]. *)
Definition new_rate_limiter (config : ProxyConfig) : RateLimiter := {|
  max_requests := rate_limit_per_ip config;
  window_seconds := rate_limit_window config;
|}.

Record ServerState := {
  requests : gmap string (list Z);
  RATE_LIMIT_HITS : nat;
  CONNECTION_COUNTER : nat;
}.

Definition initial_state : ServerState := {|
  requests := ∅;
  RATE_LIMIT_HITS := 0;
  CONNECTION_COUNTER := 0;
|}.

(** [while client_requests and client_requests[0] <= cutoff:
    client_requests.popleft()]. *)
Fixpoint prune (cutoff : Z) (client_requests : list Z) : list Z :=
  match client_requests with
  | [] => []
  | t :: rest =>
      if (t <=? cutoff)%Z then prune cutoff rest else client_requests
  end.

Definition limiter_exempt (client_ip : string) : bool :=
  bool_decide (client_ip ∈ ["127.0.0.1"; "::1"; "localhost"]).

Definition is_allowed (self : RateLimiter) (client_ip : string) (now : Z)
    (st : ServerState) : bool * ServerState :=
  if limiter_exempt client_ip then (true, st)
  else
    let client_requests := default [] (requests st !! client_ip) in
    let client_requests :=
      prune (now - window_seconds self) client_requests in
    if (max_requests self <=? Z.of_nat (List.length client_requests))%Z then
      (false,
       {| requests := <[client_ip := client_requests]> (requests st);
          RATE_LIMIT_HITS := S (RATE_LIMIT_HITS st);
          CONNECTION_COUNTER := CONNECTION_COUNTER st |})
    else
      (true,
       {| requests := <[client_ip := client_requests ++ [now]]> (requests st);
          RATE_LIMIT_HITS := RATE_LIMIT_HITS st;
          CONNECTION_COUNTER := CONNECTION_COUNTER st |}).

(** The record of an address; a missing key reads as the empty deque, as
    in a [defaultdict(deque)]. *)
Definition record (client_ip : string) (st : ServerState) : list Z :=
  default [] (requests st !! client_ip).

(** A run of admission checks for one address at the given times. *)
Fixpoint admissions (self : RateLimiter) (client_ip : string)
    (times : list Z) (st : ServerState) : list bool * ServerState :=
  match times with
  | [] => ([], st)
  | now :: times' =>
      let '(ok, st1) := is_allowed self client_ip now st in
      let '(oks, st2) := admissions self client_ip times' st1 in
      (ok :: oks, st2)
  end.

(** ** The authentication manager ([AuthManager.authenticate]) *)

Section Engine.
Context `{Platform}.

Definition authenticate (config : ProxyConfig) (auth_tokens : gmap string string)
    (username password : string) : bool :=
  if negb (auth_required config) then true
  else
    let password_hash := sha256_hexdigest password in
    bool_decide (auth_tokens !! username = Some password_hash).

(** ** The SOCKS5 engine

    What a session does is recorded as a trace of events. *)

Inductive event :=
  | EvWrite (data : bytes)               (* writer.write(data) to the client *)
  | EvDial (addr : string) (port : nat)  (* asyncio.open_connection(addr, port) *)
  | EvRelay                              (* _relay_data(...) *)
  | EvClose.                             (* writer.close() *)

(** A session in progress: the chunks still to be returned by
    [reader.read], and the events so far. *)
Record session := {
  pending : list bytes;
  trace : list event;
}.

(** [await reader.read(n)]: at most [n] bytes of what has arrived; the
    empty byte string at end of stream. *)
Definition read (n : nat) (s : session) : bytes * session :=
  match pending s with
  | [] => ([], s)
  | chunk :: rest =>
      (firstn n chunk,
       {| pending := if (List.length chunk <=? n)%nat then rest
                     else skipn n chunk :: rest;
          trace := trace s |})
  end.

Definition emit (e : event) (s : session) : session :=
  {| pending := pending s; trace := trace s ++ [e] |}.

(** The environment of a session: configuration, credential table and the
    outcome of [asyncio.open_connection] within the 10 second limit. *)
Record Env := {
  config : ProxyConfig;
  auth_tokens : gmap string string;
  open_connection : string -> nat -> bool;
}.

Definition SOCKS_VERSION : nat := 5.

(** [struct.pack('!BBBBIH', SOCKS_VERSION, code, 0, 1, 0, 0)]. *)
Definition reply (code : N) : bytes :=
  pack_B (N.of_nat SOCKS_VERSION) ++ pack_B code ++ pack_B 0 ++ pack_B 1 ++
  pack_I 0 ++ pack_H 0.

Definition _handle_authentication (env : Env) (s : session) : bool * session :=
  let '(data, s) := read 513 s in
  if (List.length data <? 3)%nat then (false, s) else
  let version := u8 data 0 in
  if negb (version =? 1)%nat then (false, s) else
  let username_len := u8 data 1 in
  if (List.length data <? 2 + username_len + 1)%nat then (false, s) else
  let username := decode_utf8_ignore (slice data 2 (2 + username_len)) in
  let password_len := u8 data (2 + username_len) in
  if (List.length data <? 2 + username_len + 1 + password_len)%nat then (false, s) else
  let password :=
    decode_utf8_ignore
      (slice data (2 + username_len + 1) (2 + username_len + 1 + password_len)) in
  if authenticate (config env) (auth_tokens env) username password
  then (true, emit (EvWrite (pack_B 1 ++ pack_B 0)) s)
  else (false, emit (EvWrite (pack_B 1 ++ pack_B 1)) s).

(** The tail of [_handle_socks5_request] once [addr] and [port] are
    parsed: the security check, then the dial.  A failed or timed out
    [open_connection] is the [except] branch; writes to the client and the
    relay are taken not to raise. *)
Definition connect_target (env : Env) (addr : string) (port : nat)
    (s : session) : session :=
  if negb (_is_telegram_address (config env) addr) then
    emit (EvWrite (reply 2)) s
  else
    let s := emit (EvDial addr port) s in
    if open_connection env addr port then
      emit EvRelay (emit (EvWrite (reply 0)) s)
    else
      emit (EvWrite (reply 1)) s.

Definition _handle_socks5_request (env : Env) (s : session) : session :=
  let '(data, s) := read 262 s in
  if (List.length data <? 10)%nat then s else
  let version := u8 data 0 in
  let cmd := u8 data 1 in
  let addr_type := u8 data 3 in
  if negb (version =? SOCKS_VERSION)%nat || negb (cmd =? 1)%nat then
    emit (EvWrite (reply 7)) s
  else if (addr_type =? 1)%nat then
    if (List.length data <? 10)%nat then s else
    let addr := inet_ntoa (slice data 4 8) in
    let port := unpack_H data 8 in
    connect_target env addr port s
  else if (addr_type =? 3)%nat then
    if (List.length data <? 5)%nat then s else
    let addr_len := u8 data 4 in
    if (List.length data <? 5 + addr_len + 2)%nat then s else
    let addr := decode_utf8_ignore (slice data 5 (5 + addr_len)) in
    let port := unpack_H data (5 + addr_len) in
    connect_target env addr port s
  else if (addr_type =? 4)%nat then
    if (List.length data <? 22)%nat then s else
    let addr := inet_ntop6 (slice data 4 20) in
    let port := unpack_H data 20 in
    connect_target env addr port s
  else
    emit (EvWrite (reply 8)) s.

Definition _handle_socks5_handshake (env : Env) (s : session) : session :=
  let '(data, s) := read 262 s in
  if (List.length data <? 3)%nat then s else
  let version := u8 data 0 in
  let nmethods := u8 data 1 in
  if negb (version =? SOCKS_VERSION)%nat then s else
  let methods := map Byte.to_nat (slice data 2 (2 + nmethods)) in
  if auth_required (config env) && negb (bool_decide (2%nat ∈ methods)) then
    emit (EvWrite (pack_B (N.of_nat SOCKS_VERSION) ++ pack_B 255)) s
  else
    let s :=
      emit (EvWrite (pack_B (N.of_nat SOCKS_VERSION) ++
                     pack_B (if auth_required (config env) then 2 else 0))) s in
    let '(authenticated, s) :=
      if auth_required (config env) then _handle_authentication env s
      else (true, s) in
    if negb authenticated then s
    else _handle_socks5_request env s.

Definition exempt_ips : list string := ["127.0.0.1"; "::1"; "localhost"].

(** [client_ip.startswith('172.') or client_ip.startswith('10.')]. *)
Definition is_docker_internal (client_ip : string) : bool :=
  startswith client_ip "172." || startswith client_ip "10.".

(** The admission test of [handle_client]: [client_ip not in exempt_ips
    and not is_docker_internal and not is_allowed(client_ip)] rejects; [and]
    evaluates the limiter only when the two exemptions fail. *)
Definition admission (env : Env) (client_ip : string) (now : Z)
    (st : ServerState) : bool * ServerState :=
  if negb (bool_decide (client_ip ∈ exempt_ips)) then
    if negb (is_docker_internal client_ip) then
      is_allowed (new_rate_limiter (config env)) client_ip now st
    else (true, st)
  else (true, st).

Definition handle_client (env : Env) (client_ip : string) (now : Z)
    (input : list bytes) (st : ServerState) : list event * ServerState :=
  let '(admitted, st) := admission env client_ip now st in
  if negb admitted then ([EvClose], st)
  else
    let st := {| requests := requests st;
                 RATE_LIMIT_HITS := RATE_LIMIT_HITS st;
                 CONNECTION_COUNTER := S (CONNECTION_COUNTER st) |} in
    let s := _handle_socks5_handshake env {| pending := input; trace := [] |} in
    (trace s ++ [EvClose], st).

End Engine.

(** ** A concrete platform for evaluating examples

    The theorems below hold for every [Platform].  Concrete sessions are
    evaluated on this instance, which is exact on what the examples use:
    ASCII data, IPv4 literals and IPv4 networks written with a prefix
    length.  It knows no IPv6 text and no dotted netmasks, prints IPv6
    addresses as eight uncompressed groups and keeps digests symbolic. *)

Definition is_digit (c : ascii) : bool :=
  (48 <=? nat_of_ascii c)%nat && (nat_of_ascii c <=? 57)%nat.

Fixpoint decimal_value (acc : N) (s : string) : option N :=
  match s with
  | EmptyString => Some acc
  | String c s' =>
      if is_digit c
      then decimal_value (10 * acc + (N_of_ascii c - 48))%N s'
      else None
  end.

(** A decimal number of one to [maxlen] digits without a leading zero. *)
Definition parse_decimal (maxlen : nat) (s : string) : option N :=
  match s with
  | EmptyString => None
  | String c s' =>
      if (maxlen <? String.length s)%nat then None
      else if Ascii.eqb c "0" && negb (String.eqb s' "") then None
      else decimal_value 0 s
  end.

(** [s.split(sep)] for a one-character separator. *)
Fixpoint split_char (sep : ascii) (s : string) : list string :=
  match s with
  | EmptyString => [EmptyString]
  | String c s' =>
      if Ascii.eqb c sep then EmptyString :: split_char sep s'
      else
        match split_char sep s' with
        | [] => [String c EmptyString]
        | part :: parts => String c part :: parts
        end
  end.

Definition parse_octet (s : string) : option N :=
  match parse_decimal 3 s with
  | Some n => if (n <=? 255)%N then Some n else None
  | None => None
  end.

Definition parse_ipv4 (s : string) : option ip_addr :=
  match map parse_octet (split_char "." s) with
  | [Some a; Some b; Some c; Some d] =>
      Some (IpAddr IPv4 (((a * 256 + b) * 256 + c) * 256 + d)%N)
  | _ => None
  end.

Definition ipv4_netmask (prefixlen : N) : N :=
  (N.ones 32 - N.ones (32 - prefixlen))%N.

Definition parse_ipv4_network (s : string) : option ip_net :=
  match split_char "/" s with
  | [a] =>
      match parse_ipv4 a with
      | Some ip => Some (IpNet IPv4 (ip_int ip) (N.ones 32))
      | None => None
      end
  | [a; p] =>
      match parse_ipv4 a, parse_decimal 2 p with
      | Some ip, Some len =>
          if (len <=? 32)%N
          then Some (IpNet IPv4 (N.land (ip_int ip) (ipv4_netmask len))
                           (ipv4_netmask len))
          else None
      | _, _ => None
      end
  | _ => None
  end.

Definition ascii_text (data : bytes) : string :=
  String.string_of_list_byte (filter (fun b => Byte.to_nat b < 128)%nat data).

Definition hex_digit (n : nat) : ascii :=
  ascii_of_nat (if (n <? 10)%nat then 48 + n else 87 + n).

Definition hex_group (hi lo : nat) : string :=
  String (hex_digit (hi / 16)) (String (hex_digit (hi mod 16))
    (String (hex_digit (lo / 16)) (String (hex_digit (lo mod 16)) EmptyString))).

Fixpoint hex_groups (data : bytes) : list string :=
  match data with
  | hi :: lo :: rest => hex_group (Byte.to_nat hi) (Byte.to_nat lo) :: hex_groups rest
  | _ => []
  end.

Definition plain_ipv6_text (data : bytes) : string :=
  String.concat ":" (hex_groups data).

#[global] Instance example_platform : Platform := {|
  ip_address := parse_ipv4;
  ip_network := parse_ipv4_network;
  decode_utf8_ignore := ascii_text;
  inet_ntop6 := plain_ipv6_text;
  sha256_hexdigest := fun s => "sha256:" +:+ s;
|}.

(** The byte string of an ASCII text ([s.encode()]). *)
Definition str_encode (s : string) : bytes := String.list_byte_of_string s.

Definition example_env (cfg : ProxyConfig) (reachable : bool) : Env := {|
  config := cfg;
  auth_tokens := {[ "admin" := sha256_hexdigest "password" ]};
  open_connection := fun _ _ => reachable;
|}.

(** ** Messages as a client puts them on the wire

    The message layouts of the external interface (RFC 1928), as the client
    scripts of the repository build them with [struct.pack]. *)

(** Greeting [05 N method...]. *)
Definition greeting (methods : bytes) : bytes :=
  pack_B 5 ++ pack_B (N.of_nat (List.length methods)) ++ methods.

Inductive target :=
  | TargetIPv4 (address : bytes)     (* address type 1, four bytes *)
  | TargetDomain (name : bytes)      (* address type 3, length-prefixed *)
  | TargetIPv6 (address : bytes).    (* address type 4, sixteen bytes *)

Definition target_field (t : target) : bytes :=
  match t with
  | TargetIPv4 address => pack_B 1 ++ address
  | TargetDomain name => pack_B 3 ++ pack_B (N.of_nat (List.length name)) ++ name
  | TargetIPv6 address => pack_B 4 ++ address
  end.

(** Request [05 cmd 00 atyp addr port]; [cmd = 1] is CONNECT. *)
Definition socks_request (version cmd : N) (t : target) (port : N) : bytes :=
  pack_B version ++ pack_B cmd ++ pack_B 0 ++ target_field t ++ pack_H port.

Definition connect_request (t : target) (port : N) : bytes :=
  socks_request 5 1 t port.

Definition well_formed_target (t : target) : Prop :=
  match t with
  | TargetIPv4 address => List.length address = 4%nat
  | TargetDomain name => (List.length name <= 255)%nat
  | TargetIPv6 address => List.length address = 16%nat
  end.

(** The text the engine hands to the domain filter for a target. *)
Definition target_text `{Platform} (t : target) : string :=
  match t with
  | TargetIPv4 address => inet_ntoa address
  | TargetDomain name => decode_utf8_ignore name
  | TargetIPv6 address => inet_ntop6 address
  end.

(** ** The traffic obfuscator ([TrafficObfuscator])

    [self.cipher] is a Fernet instance of the [cryptography] package, with
    the key fixed at construction.  Encryption draws a timestamp and an
    initialisation vector, here the [nonce]; decryption fails with
    [InvalidToken], here [None]. *)

Class Cipher := {
  nonce : Type;
  cipher_encrypt : nonce -> bytes -> bytes;
  cipher_decrypt : bytes -> option bytes;
}.

Definition crlf : string := String "013" (String "010" EmptyString).

Definition CRLF : bytes := [x0d; x0a].

Definition user_agents : list string :=
  [ "Mozilla/5.0 (Windows NT 10.0; Win64; x64) AppleWebKit/537.36";
    "Mozilla/5.0 (Macintosh; Intel Mac OS X 10_15_7) AppleWebKit/537.36";
    "Mozilla/5.0 (X11; Linux x86_64) AppleWebKit/537.36" ].

Definition fake_paths : list string :=
  [ "/api/v1/data"; "/static/js/app.js"; "/images/logo.png"; "/css/style.css" ].

(** [random.choice(options)], with the drawn index made explicit. *)
Definition choice (options : list string) (index : nat) : string :=
  nth index options EmptyString.

Definition _generate_fake_http_headers (path_index agent_index : nat) : string :=
  let headers := "GET " +:+ choice fake_paths path_index +:+ " HTTP/1.1" +:+ crlf in
  let headers := headers +:+ "Host: cdn.cloudflare.com" +:+ crlf in
  let headers := headers +:+ "User-Agent: " +:+ choice user_agents agent_index +:+ crlf in
  let headers := headers +:+
    "Accept: text/html,application/xhtml+xml,application/xml;q=0.9,*/*;q=0.8" +:+ crlf in
  let headers := headers +:+ "Accept-Language: en-US,en;q=0.5" +:+ crlf in
  let headers := headers +:+ "Accept-Encoding: gzip, deflate" +:+ crlf in
  let headers := headers +:+ "Connection: keep-alive" +:+ crlf in
  headers.

Fixpoint bytes_prefix (p data : bytes) : bool :=
  match p, data with
  | [], _ => true
  | _ :: _, [] => false
  | a :: p', b :: data' => Byte.eqb a b && bytes_prefix p' data'
  end.

(** [data.split(sep, 1)] when [sep in data]: the parts before and after the
    first occurrence; [None] when [sep] does not occur. *)
Fixpoint split_first (sep data : bytes) : option (bytes * bytes) :=
  if bytes_prefix sep data then Some ([], skipn (List.length sep) data)
  else
    match data with
    | [] => None
    | b :: rest =>
        match split_first sep rest with
        | Some (before, after) => Some (b :: before, after)
        | None => None
        end
    end.

Section Obfuscator.
Context `{Cipher}.

(** The random draws of one [obfuscate] call: [os.urandom(padding_size)]
    with [padding_size = random.randint(1, 16)], the two [random.choice]
    indices and the cipher's own randomness. *)
Record Draws := {
  padding : bytes;
  path_index : nat;
  agent_index : nat;
  cipher_nonce : nonce;
}.

Definition valid_draws (r : Draws) : Prop :=
  (1 <= List.length (padding r) <= 16)%nat /\
  (path_index r < List.length fake_paths)%nat /\
  (agent_index r < List.length user_agents)%nat.

Definition obfuscate (r : Draws) (data : bytes) : bytes :=
  let encrypted := cipher_encrypt (cipher_nonce r) data in
  let fake_headers := _generate_fake_http_headers (path_index r) (agent_index r) in
  str_encode fake_headers ++ (CRLF ++ CRLF) ++ encrypted ++ padding r.

(** The loop [for padding_size in range(1, 17)]: the first size whose
    stripped body decrypts wins. *)
Fixpoint try_paddings (sizes : list nat) (body : bytes) : option bytes :=
  match sizes with
  | [] => None
  | padding_size :: more =>
      let encrypted_data :=
        if (0 <? padding_size)%nat
        then firstn (List.length body - padding_size) body
        else body in
      match cipher_decrypt encrypted_data with
      | Some decrypted => Some decrypted
      | None => try_paddings more body
      end
  end.

Definition deobfuscate (data : bytes) : bytes :=
  let body :=
    match split_first (CRLF ++ CRLF) data with
    | Some (_, body) => body
    | None => data
    end in
  match try_paddings (seq 1 16) body with
  | Some decrypted => decrypted
  | None => data
  end.

End Obfuscator.

(** What the obfuscator relies on from Fernet: decryption inverts
    encryption; the token reader (lenient base64) skips line breaks; and,
    the token being authenticated, bytes appended to a token never make it
    decrypt to a different plaintext. *)
Class CipherLaws `{Cipher} : Prop := {
  decrypt_encrypt :
    forall (n : nonce) (data : bytes),
      cipher_decrypt (cipher_encrypt n data) = Some data;
  decrypt_skips_line_break :
    forall token : bytes, cipher_decrypt (CRLF ++ token) = cipher_decrypt token;
  decrypt_authentic :
    forall (n : nonce) (data junk decrypted : bytes),
      cipher_decrypt (cipher_encrypt n data ++ junk) = Some decrypted ->
      decrypted = data;
}.

(** A small cipher for evaluating examples: a token is the length of the
    plaintext in unary, a zero byte and the plaintext.  Like Fernet's
    base64 reader it skips line breaks in front of a token, and it ignores
    what follows a complete token. *)

Fixpoint take_exactly (n : nat) (data : bytes) : option bytes :=
  match n, data with
  | O, _ => Some []
  | S _, [] => None
  | S n', b :: rest =>
      match take_exactly n' rest with
      | Some taken => Some (b :: taken)
      | None => None
      end
  end.

Fixpoint unary_token (count : nat) (token : bytes) : option bytes :=
  match token with
  | [] => None
  | b :: rest =>
      if Byte.eqb b x01 then unary_token (S count) rest
      else if Byte.eqb b x00 then take_exactly count rest
      else None
  end.

Fixpoint skip_line_breaks (token : bytes) : bytes :=
  match token with
  | b :: rest =>
      if Byte.eqb b x0d || Byte.eqb b x0a then skip_line_breaks rest else token
  | [] => []
  end.

#[global] Instance unary_cipher : Cipher := {|
  nonce := unit;
  cipher_encrypt := fun _ data => repeat x01 (List.length data) ++ [x00] ++ data;
  cipher_decrypt := fun token => unary_token 0 (skip_line_breaks token);
|}.

(** The same cipher with a reader that does not skip line breaks. *)
Definition strict_cipher : Cipher := {|
  nonce := unit;
  cipher_encrypt := fun _ data => repeat x01 (List.length data) ++ [x00] ++ data;
  cipher_decrypt := fun token => unary_token 0 token;
|}.

(** ** The port hopper ([PortHopper])

    A hop runs on a logical clock: [asyncio.sleep(d)] advances it by [d]
    plus a non-negative delay of the event loop, every other statement takes
    no time.  Each assignment to the hopper's fields is committed to a
    timeline, so that the listeners open at any instant can be read off. *)

Record BypassConfig := {
  socks_host : string;
  socks_port : N;
  port_range : N * N;
  hop_interval : Z;
}.

Definition default_bypass_config : BypassConfig := {|
  socks_host := "localhost";
  socks_port := 1080;
  port_range := (8000, 9000)%N;
  hop_interval := 300;
|}.

(** Where [handle_hopped_connection] dials for every accepted connection:
    [asyncio.open_connection(config.socks_host, config.socks_port)]. *)
Definition handle_hopped_connection (cfg : BypassConfig) : string * N :=
  (socks_host cfg, socks_port cfg).

(** A server returned by [asyncio.start_server(handler, host, port)]. *)
Record Listener := {
  bind_host : string;
  bind_port : N;
  forwards_to : string * N;
}.

Record PortHopper := {
  current_port : option N;
  servers : gmap N Listener;
  last_hop : Z;
}.

(** [PortHopper.__init__]; [current_port] is [None]. *)
Definition new_port_hopper : PortHopper := {|
  current_port := None;
  servers := ∅;
  last_hop := 0;
|}.

(** What a hop takes from its surroundings: the successive results of
    [random.randint] over the port range, whether [asyncio.start_server] succeeds
    on a port, and by how much a sleep overruns. *)
Record HopEnv := {
  randint : list N;
  start_server_ok : N -> bool;
  oversleep : Z;
}.

Record World := {
  clock : Z;
  hopper : PortHopper;
  timeline : list (Z * PortHopper);
}.

Definition commit (h : PortHopper) (w : World) : World :=
  {| clock := clock w; hopper := h; timeline := timeline w ++ [(clock w, h)] |}.

Definition sleep (env : HopEnv) (seconds : Z) (w : World) : World :=
  {| clock := clock w + seconds + oversleep env;
     hopper := hopper w;
     timeline := timeline w |}.

(** [new_port = randint(...)], then [while new_port == self.current_port:
    new_port = randint(...)].  [None] when the loop is still running after
    all the given draws. *)
Fixpoint choose_port (current : option N) (draws : list N) : option N :=
  match draws with
  | [] => None
  | new_port :: more =>
      if bool_decide (Some new_port = current) then choose_port current more
      else Some new_port
  end.

(** Python truth of [old_port]: neither [None] nor [0]. *)
Definition truthy (port : option N) : bool :=
  match port with
  | Some p => negb (p =? 0)%N
  | None => false
  end.

Definition hop_to_new_port (cfg : BypassConfig) (env : HopEnv) (w : World)
    : option World :=
  match choose_port (current_port (hopper w)) (randint env) with
  | None => None
  | Some new_port =>
      if negb (start_server_ok env new_port) then Some w
      else
        let server := {| bind_host := "0.0.0.0";
                         bind_port := new_port;
                         forwards_to := handle_hopped_connection cfg |} in
        let old_port := current_port (hopper w) in
        let w := commit {| current_port := Some new_port;
                           servers := <[new_port := server]> (servers (hopper w));
                           last_hop := last_hop (hopper w) |} w in
        match old_port with
        | Some old =>
            if truthy old_port && bool_decide (old ∈ dom (servers (hopper w)))
            then
              let w := sleep env 60 w in
              Some (commit {| current_port := current_port (hopper w);
                              servers := delete old (servers (hopper w));
                              last_hop := last_hop (hopper w) |} w)
            else Some w
        | None => Some w
        end
  end.

(** The hopper as it stands at instant [t], given the state before the
    first commit of a timeline. *)
Fixpoint hopper_at (before : PortHopper) (commits : list (Z * PortHopper))
    (t : Z) : PortHopper :=
  match commits with
  | [] => before
  | (at_time, h) :: later =>
      if (at_time <=? t)%Z then hopper_at h later t else before
  end.

(** The ports with an open listener at instant [t]. *)
Definition open_ports (before : PortHopper) (commits : list (Z * PortHopper))
    (t : Z) : gset N :=
  dom (servers (hopper_at before commits t)).

Definition start_world (at_time : Z) (h : PortHopper) : World :=
  {| clock := at_time; hopper := h; timeline := [] |}.

(** ** The acceptance test in the words of the specification

    "Accept if the address exactly matches an allow-listed hostname, or is a
    strict subdomain of one (suffix match on "." + hostname), or - if the
    address parses as an IP literal - falls inside any allow-listed CIDR
    block."  [hostname] says which entries of the allow set count as
    hostnames. *)

Definition spec_filter `{Platform} (hostname : string -> bool)
    (config : ProxyConfig) (addr : string) : bool :=
  existsb (fun h => hostname h && String.eqb addr h)
          (elements (telegram_domains config))
  || existsb (fun h => hostname h && endswith addr ("." +:+ h))
             (elements (telegram_domains config))
  || match ip_address addr with
     | Some ip => existsb (cidr_match ip) (elements (telegram_domains config))
     | None => false
     end.

(** The allow set of the data model separates hostnames from CIDR blocks. *)
Definition not_cidr (entry : string) : bool := negb (contains entry "/").

(** A second reading: every entry counts. *)
Definition any_entry (entry : string) : bool := true.

(** A third reading: every entry but the wildcard patterns. *)
Definition not_wildcard (entry : string) : bool := negb (startswith entry "*.").

Definition wildcard_config : ProxyConfig := {|
  rate_limit_per_ip := 15;
  rate_limit_window := 60;
  auth_required := true;
  telegram_domains := {[ "*.telegram.org" ]};
|}.

(** ** Notions used in the statements *)

(** An event that respects the allow list: a dial only to an address that
    the domain filter accepts. *)
Definition allowed_dial `{Platform} (env : Env) (e : event) : Prop :=
  match e with
  | EvDial addr _ => _is_telegram_address (config env) addr = true
  | _ => True
  end.

(** [s'] continues [s]: the trace only grows, and only by events that
    respect the allow list. *)
Definition continues `{Platform} (env : Env) (s s' : session) : Prop :=
  exists events,
    trace s' = trace s ++ events /\ Forall (allowed_dial env) events.

(** A limit of two connections per minute, for short examples. *)
Definition burst_limiter : RateLimiter := {|
  max_requests := 2;
  window_seconds := 60;
|}.

Definition open_config : ProxyConfig := {|
  rate_limit_per_ip := 15;
  rate_limit_window := 60;
  auth_required := false;
  telegram_domains := default_telegram_domains;
|}.

(** A hopper that listens on port 8080, and a hop whose first two draws
    repeat that port. *)
Definition listening_on_8080 : PortHopper := {|
  current_port := Some 8080%N;
  servers := {[ 8080%N := {| bind_host := "0.0.0.0"; bind_port := 8080;
                             forwards_to := ("localhost", 1080%N) |} ]};
  last_hop := 700;
|}.

Definition example_hop_env : HopEnv := {|
  randint := [8080; 8080; 8443]%N;
  start_server_ok := fun _ => true;
  oversleep := 2;
|}.

(** ** Further notions for the rate limiter *)

(** The times of the admitted checks of a run. *)
Fixpoint admitted_times (times : list Z) (oks : list bool) : list Z :=
  match times, oks with
  | t :: times', ok :: oks' =>
      if ok then t :: admitted_times times' oks'
      else admitted_times times' oks'
  | _, _ => []
  end.

(** What [is_allowed] keeps true of the record of an address, seen at the
    time [now] of the latest check: arrival order, every time inside the
    window that ends at [now], and no more entries than the limit. *)
Definition record_ok (self : RateLimiter) (now : Z) (q : list Z) : Prop :=
  StronglySorted Z.le q /\
  Forall (fun t => now - window_seconds self < t <= now)%Z q /\
  (Z.of_nat (List.length q) <= Z.max 0 (max_requests self))%Z.

(** ** Further notions for the engine *)

(** The username/password message [01 ulen user plen pass], as the client
    scripts build it. *)
Definition auth_request (username password : bytes) : bytes :=
  pack_B 1 ++ pack_B (N.of_nat (List.length username)) ++ username ++
  pack_B (N.of_nat (List.length password)) ++ password.

(** [BypassClient._build_socks5_request]: greeting, authentication and
    CONNECT request for a domain name in one byte string. *)
Definition _build_socks5_request (username password target_host : bytes)
    (target_port : N) : bytes :=
  let handshake := pack_B 5 ++ pack_B 1 ++ pack_B 2 in
  let auth_request := auth_request username password in
  let connect_request := connect_request (TargetDomain target_host) target_port in
  handshake ++ auth_request ++ connect_request.

(** The connections of a server in the order of their acceptance: for each
    one the peer address, the time and what its reads return.  The
    admission test and the counters of [handle_client] run before its first
    [await], so they take effect in this order. *)
Fixpoint serve `{Platform} (env : Env)
    (connections : list (string * Z * list bytes)) (st : ServerState)
    : list (list event) * ServerState :=
  match connections with
  | [] => ([], st)
  | (client_ip, now, input) :: more =>
      let '(events, st1) := handle_client env client_ip now input st in
      let '(traces, st2) := serve env more st1 in
      (events :: traces, st2)
  end.

(** The events of a session by stage, after the states of the protocol:
    what the request stage, the authentication stage and a whole session may
    consist of, before the final close. *)
Definition request_stage (events : list event) : Prop :=
  events = [] \/
  events = [EvWrite (reply 2)] \/
  events = [EvWrite (reply 7)] \/
  events = [EvWrite (reply 8)] \/
  exists addr port,
    events = [EvDial addr port; EvWrite (reply 1)] \/
    events = [EvDial addr port; EvWrite (reply 0); EvRelay].

Definition auth_stage (events : list event) : Prop :=
  events = [] \/
  events = [EvWrite [x01; x01]] \/
  exists more, events = EvWrite [x01; x00] :: more /\ request_stage more.

Definition session_shape (events : list event) : Prop :=
  events = [] \/
  events = [EvWrite [x05; xff]] \/
  (exists more, events = EvWrite [x05; x02] :: more /\ auth_stage more) \/
  (exists more, events = EvWrite [x05; x00] :: more /\ request_stage more).

(** The exchange that [WebSocketTunnel.forward_to_proxy] and
    [HTTPTunnel.handle_http_tunnel] make with the engine: connect, write
    [data], read one chunk of at most 8192 bytes, close.  The engine writes
    again only after a further read, so the chunk is its first write, or
    empty when it closes without writing. *)
Definition first_write (events : list event) : bytes :=
  match events with
  | EvWrite data :: _ => data
  | _ => []
  end.

(** The chunk size [8192] of the tunnels and of the relay loops. *)
Definition chunk_size : nat := N.to_nat 8192.

Definition tunnel_exchange `{Platform} (env : Env) (client_ip : string)
    (now : Z) (data : bytes) (st : ServerState) : bytes * ServerState :=
  let '(events, st) := handle_client env client_ip now [data] st in
  (firstn chunk_size (first_write events), st).

(** ** The relay loops

    [copy_data] of [SOCKS5Server._relay_data] and
    [PortHopper._forward_data] are the same loop: read at most 8192 bytes,
    leave at end of stream, otherwise write what was read; the writer is
    closed when the loop is left.  A session pairs the reader with the
    writer of one direction.  [None] when the loop is still running after
    [fuel] reads. *)
Fixpoint copy_data (fuel : nat) (s : session) : option session :=
  match fuel with
  | O => None
  | S fuel' =>
      let '(data, s) := read chunk_size s in
      if bool_decide (data = []) then Some (emit EvClose s)
      else copy_data fuel' (emit (EvWrite data) s)
  end.

(** ** The loop of the port hopper

    One pass of [while True] in [start_hopping]: the hop when it is due,
    the assignment to [last_hop], and the sleep of 30 seconds. *)
Definition start_hopping_pass (cfg : BypassConfig) (env : HopEnv) (w : World)
    : option World :=
  let current_time := clock w in
  if (hop_interval cfg <=? current_time - last_hop (hopper w))%Z then
    match hop_to_new_port cfg env w with
    | None => None
    | Some w =>
        Some (sleep env 30
                (commit {| current_port := current_port (hopper w);
                           servers := servers (hopper w);
                           last_hop := current_time |} w))
    end
  else Some (sleep env 30 w).

(** The first passes of the loop, one for each element of [passes], which
    gives the surroundings of that pass. *)
Fixpoint start_hopping (cfg : BypassConfig) (passes : list HopEnv) (w : World)
    : option World :=
  match passes with
  | [] => Some w
  | env :: more =>
      match start_hopping_pass cfg env w with
      | None => None
      | Some w => start_hopping cfg more w
      end
  end.

(** [HTTPTunnel.get_port_info]: the status, [current_port] and
    [active_ports] of the response; [port_hopper] is
    [request.app.get('port_hopper')].  The order of the keys of [servers]
    is not modelled. *)
Definition get_port_info (port_hopper : option PortHopper)
    : nat * option N * list N :=
  match port_hopper with
  | Some h =>
      if truthy (current_port h)
      then (200%nat, current_port h, elements (dom (servers h)))
      else (404%nat, None, [])
  | None => (404%nat, None, [])
  end.

(** Between two hops the hopper listens on its current port alone, which
    is not port 0; before the first hop it does not listen. *)
Definition hopper_single (h : PortHopper) : Prop :=
  match current_port h with
  | Some p => p <> 0%N /\ dom (servers h) = {[p]}
  | None => dom (servers h) = ∅
  end.

(** At most two listeners, among them the one of the current port. *)
Definition hopper_safe (h : PortHopper) : Prop :=
  (size (dom (servers h)) <= 2)%nat /\
  forall p, current_port h = Some p -> p ∈ dom (servers h).

(** Draws that let every hop go through: none is port 0, and two of them
    differ, so that one differs from the current port. *)
Definition usable_draws (env : HopEnv) : Prop :=
  Forall (fun p => p <> 0%N) (randint env) /\
  exists a b, a ∈ randint env /\ b ∈ randint env /\ a <> b.

(** Times that are at least [interval] apart: each time of the list is
    the one before it, or later by [interval] or more. *)
Fixpoint spaced (interval prev : Z) (times : list Z) : Prop :=
  match times with
  | [] => True
  | t :: more => (t = prev \/ prev + interval <= t)%Z /\ spaced interval t more
  end.

(** ** The credential table ([AuthManager._load_auth_tokens]) *)

(** Python truth of an optional text: neither [None] nor empty. *)
Definition text_truthy (value : option string) : bool :=
  match value with
  | Some text => negb (text =? "")%string
  | None => false
  end.

Section AuthManager.
Context `{Platform}.

(** [json.loads] on a text that holds a JSON object with string values;
    [None] for [json.JSONDecodeError]. *)
Variable json_loads : string -> option (gmap string string).

(** [getenv name] is [os.getenv(name)]. *)
Definition _load_auth_tokens (getenv : string -> option string)
    : gmap string string :=
  let tokens : gmap string string := ∅ in
  let auth_data := getenv "PROXY_AUTH_TOKENS" in
  let tokens :=
    if text_truthy auth_data then
      match json_loads (default "" auth_data) with
      | Some loaded => loaded
      | None => tokens
      end
    else tokens in
  if bool_decide (tokens = ∅) then
    let admin_password := getenv "ADMIN_PASSWORD" in
    if text_truthy admin_password then
      <["admin" := sha256_hexdigest (default "" admin_password)]> tokens
    else
      let admin_token :=
        default "default_admin_token_change_me" (getenv "ADMIN_TOKEN") in
      <["admin" := sha256_hexdigest admin_token]> tokens
  else tokens.

End AuthManager.

(** ** The health check ([check_socks5_health])

    Every attempt is a connection of its own to the engine: the probe
    [05 01 00] in one write, then [sock.recv(2)].  [attempts] holds the
    time of each of the [retries + 1] attempts.  The server is taken to be
    up, so that [sock.connect] does not raise. *)
Fixpoint check_socks5_health `{Platform} (env : Env) (client_ip : string)
    (attempts : list Z) (st : ServerState) : bool * ServerState :=
  match attempts with
  | [] => (false, st)
  | now :: later =>
      let handshake := pack_B 5 ++ pack_B 1 ++ pack_B 0 in
      let '(events, st) := handle_client env client_ip now [handshake] st in
      let response := firstn 2 (first_write events) in
      if negb (List.length response =? 2)%nat
      then check_socks5_health env client_ip later st
      else
        let version := u8 response 0 in
        let method := u8 response 1 in
        if (version =? 5)%nat && ((method =? 0)%nat || (method =? 2)%nat)
        then (true, st)
        else check_socks5_health env client_ip later st
  end.

(** An environment in which nothing is set, and a [json.loads] that
    rejects every text, for short examples. *)
Definition empty_environment : string -> option string := fun _ => None.

Definition no_json : string -> option (gmap string string) := fun _ => None.

(** The default configuration with one more allowed name. *)
Definition extended_config : ProxyConfig := {|
  rate_limit_per_ip := 15;
  rate_limit_window := 60;
  auth_required := true;
  telegram_domains := default_telegram_domains ∪ {[ "t.me" ]};
|}.

(** ** Sessions on more input *)

(** [later] is [s] with more chunks to come: the same events so far, and
    the same chunks to read, followed by others. *)
Definition extends (s later : session) : Prop :=
  trace later = trace s /\ exists more, pending later = pending s ++ more.

(** The writes of a trace, in order: what the reads of the peer return. *)
Definition writes_of (events : list event) : list bytes :=
  omap (fun e => match e with EvWrite data => Some data | _ => None end) events.

(** ** The client ([BypassClient._socks5_connect])

    The client writes a message and waits for the answer before it writes
    the next, so each message reaches the server as one chunk.  [server]
    gives the events of the server's session on the messages sent so far;
    for the engine these only grow as more is sent.  The client reads from
    the writes among them: its k-th [reader.read] is the k-th read on the
    writes of the session on what it has sent by then, the earlier reads
    being made again.  The texts are byte strings: for ASCII text [len(s)]
    is the number of bytes of [s.encode()].  The exceptions that
    [_socks5_connect] raises: *)
Inductive connect_error :=
  | InvalidHandshakeResponse
  | HandshakeFailed
  | InvalidAuthResponse
  | AuthenticationFailed
  | InvalidConnectResponse
  | ConnectFailed (response_code : nat)
  | StructError.                 (* [struct.error] of [struct.pack] *)

Inductive connect_result :=
  | Connected                    (* [return reader, writer] *)
  | Raised (e : connect_error).  (* [writer.close(); raise e] *)

(** The engine as the client of one connection meets it: the events of
    the session on the messages sent so far. *)
Definition server_of `{Platform} (env : Env) (client_ip : string) (now : Z)
    (st : ServerState) : list bytes -> list event :=
  fun sent => (handle_client env client_ip now sent st).1.

(** The client's reader once the server has answered the messages [sent]. *)
Definition responses (server : list bytes -> list event) (sent : list bytes)
    : session :=
  {| pending := writes_of (server sent); trace := [] |}.

Definition _socks5_connect (server : list bytes -> list event)
    (username password target_host : bytes) (target_port : N)
    : connect_result :=
  let handshake := pack_B 5 ++ pack_B 1 ++ pack_B 2 in
  let sent := [handshake] in
  let '(response, _) := read 2 (responses server sent) in
  if negb (List.length response =? 2)%nat then Raised InvalidHandshakeResponse
  else
  let version := u8 response 0 in
  let method := u8 response 1 in
  if negb (version =? 5)%nat || negb (method =? 2)%nat then Raised HandshakeFailed
  else
  if (255 <? List.length username)%nat || (255 <? List.length password)%nat
  then Raised StructError
  else
  let auth_request := auth_request username password in
  let sent := sent ++ [auth_request] in
  let '(auth_response, _) := read 2 (read 2 (responses server sent)).2 in
  if negb (List.length auth_response =? 2)%nat then Raised InvalidAuthResponse
  else
  let auth_status := u8 auth_response 1 in
  if negb (auth_status =? 0)%nat then Raised AuthenticationFailed
  else
  if (255 <? List.length target_host)%nat || (65535 <? target_port)%N
  then Raised StructError
  else
  let request := connect_request (TargetDomain target_host) target_port in
  let sent := sent ++ [request] in
  let '(connect_response, _) :=
    read 10 (read 2 (read 2 (responses server sent)).2).2 in
  if (List.length connect_response <? 10)%nat then Raised InvalidConnectResponse
  else
  let response_version := u8 connect_response 0 in
  let response_code := u8 connect_response 1 in
  if negb (response_version =? 5)%nat || negb (response_code =? 0)%nat
  then Raised (ConnectFailed response_code)
  else Connected.

(** ** The HTTP tunnel ([HTTPTunnel.handle_http_tunnel])

    The body of the response, whose status is 200: the request body is
    deobfuscated, sent to the engine in one write, and the chunk read back
    is obfuscated.  [obfuscation_key] is the truth of
    [config.obfuscation_key] and [r] holds the random draws of [obfuscate].
    The engine is taken to be reachable; otherwise the handler answers with
    status 500. *)
Definition handle_http_tunnel `{Cipher} `{Platform} (obfuscation_key : bool)
    (r : Draws) (env : Env) (client_ip : string) (now : Z) (body : bytes)
    (st : ServerState) : bytes * ServerState :=
  let data := body in
  let data := if obfuscation_key then deobfuscate data else data in
  let '(response_data, st) := tunnel_exchange env client_ip now data st in
  let response_data :=
    if obfuscation_key then obfuscate r response_data else response_data in
  (response_data, st).

(** ** Dials over the connections of a server *)

(** The time at which a connection is accepted. *)
Definition arrival (connection : string * Z * list bytes) : Z := connection.1.2.

(** Whether a session dialed. *)
Definition dialed (events : list event) : bool :=
  existsb (fun e => match e with EvDial _ _ => true | _ => false end) events.

(** The arrival times of the connections from [client_ip] whose session
    dialed, given the traces of all sessions. *)
Fixpoint dial_times (client_ip : string)
    (connections : list (string * Z * list bytes))
    (traces : list (list event)) : list Z :=
  match connections, traces with
  | (ip, now, _) :: connections', events :: traces' =>
      if bool_decide (ip = client_ip) && dialed events
      then now :: dial_times client_ip connections' traces'
      else dial_times client_ip connections' traces'
  | _, _ => []
  end.

(** [BypassClient._socks5_connect_with_connection], the handshake over a
    connection that exists already: the method selection is unpacked but
    not looked at, and of the reply only the code is.  [struct.unpack]
    raises [struct.error] on an answer that is not of two bytes. *)
Definition _socks5_connect_with_connection (server : list bytes -> list event)
    (username password target_host : bytes) (target_port : N)
    : connect_result :=
  let handshake := pack_B 5 ++ pack_B 1 ++ pack_B 2 in
  let sent := [handshake] in
  let '(response, _) := read 2 (responses server sent) in
  if negb (List.length response =? 2)%nat then Raised StructError
  else
  if (255 <? List.length username)%nat || (255 <? List.length password)%nat
  then Raised StructError
  else
  let auth_request := auth_request username password in
  let sent := sent ++ [auth_request] in
  let '(auth_response, _) := read 2 (read 2 (responses server sent)).2 in
  if negb (List.length auth_response =? 2)%nat then Raised StructError
  else
  let auth_status := u8 auth_response 1 in
  if negb (auth_status =? 0)%nat then Raised AuthenticationFailed
  else
  if (255 <? List.length target_host)%nat || (65535 <? target_port)%N
  then Raised StructError
  else
  let request := connect_request (TargetDomain target_host) target_port in
  let sent := sent ++ [request] in
  let '(connect_response, _) :=
    read 10 (read 2 (read 2 (responses server sent)).2).2 in
  if negb (List.length (slice connect_response 0 2) =? 2)%nat
  then Raised StructError
  else
  let response_code := u8 connect_response 1 in
  if negb (response_code =? 0)%nat then Raised (ConnectFailed response_code)
  else Connected.

(* ===================================================================== *)
(** * Part II: properties                                                 *)
(* ===================================================================== *)

(** ** Strings and sets *)

Lemma endswith_spec (s p : string) :
  endswith s p = true <-> exists q, s = q +:+ p.
Proof.
  induction s as [|a s IH]; cbn [endswith].
  - rewrite orb_false_r, String.eqb_eq. split.
    + intros <-. by exists "".
    + intros [q Hq]. destruct q; simpl in Hq; [done | discriminate].
  - rewrite orb_true_iff, String.eqb_eq, IH. split.
    + intros [<- | [q ->]]; [by exists "" | by exists (String a q)].
    + intros [[|b q] Hq]; simpl in Hq.
      * by left.
      * right. exists q. by injection Hq.
Qed.

Lemma existsb_elements (f : string -> bool) (S : gset string) :
  existsb f (elements S) = true <-> exists x, x ∈ S /\ f x = true.
Proof.
  rewrite existsb_exists. split; intros [x [Hx Hf]]; exists x; split; auto.
  - by apply elem_of_elements, list_elem_of_In.
  - by apply list_elem_of_In, elem_of_elements.
Qed.

(** ** The domain filter *)

Section DomainFilterProperties.
Context `{Platform}.

Lemma subdomain_match_spec (addr domain : string) :
  subdomain_match addr domain = true <->
  startswith domain "*." = false /\ exists label, addr = label +:+ "." +:+ domain.
Proof.
  unfold subdomain_match.
  rewrite andb_true_iff, negb_true_iff, endswith_spec. reflexivity.
Qed.

Lemma cidr_match_spec (ip : ip_addr) (cidr : string) :
  cidr_match ip cidr = true <->
  contains cidr "/" = true /\
  exists network, ip_network cidr = Some network /\ ip_in_network ip network = true.
Proof.
  unfold cidr_match. destruct (contains cidr "/").
  - destruct (ip_network cidr) as [network|]; split.
    + intros Hin. split; [done | by exists network].
    + intros [_ [n [[= <-] Hin]]]. done.
    + discriminate.
    + intros [_ [n [[=] _]]].
  - split; [discriminate | intros [[=] _]].
Qed.

(** The outcome of the filter in terms of its three loops. *)
Lemma is_telegram_address_true (config : ProxyConfig) (addr : string) :
  _is_telegram_address config addr = true <->
    addr ∈ telegram_domains config
    \/ (exists domain, domain ∈ telegram_domains config /\
          startswith domain "*." = false /\
          exists label, addr = label +:+ "." +:+ domain)
    \/ (exists ip cidr network,
          ip_address addr = Some ip /\
          cidr ∈ telegram_domains config /\
          contains cidr "/" = true /\
          ip_network cidr = Some network /\
          ip_in_network ip network = true).
Proof.
  unfold _is_telegram_address.
  case_bool_decide as Hexact; [split; auto|].
  destruct (existsb (subdomain_match addr) _) eqn:Hsub.
  { split; [intros _|done]. right; left.
    apply existsb_elements in Hsub as [d [Hd Hm]].
    apply subdomain_match_spec in Hm. by exists d. }
  assert (Hnosub : ~ exists domain, domain ∈ telegram_domains config /\
            startswith domain "*." = false /\
            exists label, addr = label +:+ "." +:+ domain).
  { intros [d [Hd Hm]]. apply not_true_iff_false in Hsub. apply Hsub.
    apply existsb_elements. exists d. split; [done|].
    by apply subdomain_match_spec. }
  destruct (ip_address addr) as [ip|] eqn:Hip.
  - destruct (existsb (cidr_match ip) _) eqn:Hcidr.
    + split; [intros _|done]. right; right.
      apply existsb_elements in Hcidr as [c [Hc Hm]].
      apply cidr_match_spec in Hm as [Hslash [n [Hn Hin]]].
      by exists ip, c, n.
    + split; [done|]. intros [?|[?|[ip' [c [n (Hip' & Hc & Hslash & Hn & Hin)]]]]];
        [done..|].
      injection Hip' as <-. apply not_true_iff_false in Hcidr. destruct Hcidr.
      apply existsb_elements. exists c. split; [done|].
      apply cidr_match_spec. split; [done|]. by exists n.
  - split; [done|]. intros [?|[?|[ip' [c [n (Hip' & _)]]]]]; done.
Qed.

(** C2, amended.  The filter accepts an address exactly when one of three
    checks succeeds: the address is equal to an entry of the allow set (a
    hostname or, verbatim, a CIDR string); or it ends with "." followed by
    an entry that does not itself start with "*."; or it parses as an IP
    literal that lies in the network of an entry containing "/".  No
    wildcard matching takes place. *)
Theorem filter_accepts_iff (config : ProxyConfig) (addr : string) :
  _is_telegram_address config addr = true <->
    addr ∈ telegram_domains config
    \/ (exists domain, domain ∈ telegram_domains config /\
          startswith domain "*." = false /\
          exists label, addr = label +:+ "." +:+ domain)
    \/ (exists ip cidr network,
          ip_address addr = Some ip /\
          cidr ∈ telegram_domains config /\
          contains cidr "/" = true /\
          ip_network cidr = Some network /\
          ip_in_network ip network = true).
Proof. exact (is_telegram_address_true config addr). Qed.

(** C10.  The exact-match and suffix checks range over every entry of the
    allow set, CIDR strings included: an address equal to a CIDR entry, or
    ending with "." followed by one, is accepted.  (A CIDR string starts
    with a digit, so never with "*.".) *)
Theorem cidr_entry_accepted_as_hostname (config : ProxyConfig)
    (cidr addr : string) :
  cidr ∈ telegram_domains config ->
  contains cidr "/" = true ->
  startswith cidr "*." = false ->
  addr = cidr \/ (exists label, addr = label +:+ "." +:+ cidr) ->
  _is_telegram_address config addr = true.
Proof.
  intros Hin _ Hstar Haddr. apply is_telegram_address_true.
  destruct Haddr as [-> | Hsuffix]; [by left|].
  right; left. by exists cidr.
Qed.

End DomainFilterProperties.

Lemma cidr_entry_accepted_as_hostname_witness :
  _is_telegram_address default_config "149.154.160.0/20" = true /\
  _is_telegram_address default_config "x.149.154.160.0/20" = true.
Proof.
  split.
  - apply (cidr_entry_accepted_as_hostname default_config
             "149.154.160.0/20" "149.154.160.0/20");
      [by vm_compute | reflexivity | reflexivity | by left].
  - apply (cidr_entry_accepted_as_hostname default_config
             "149.154.160.0/20" "x.149.154.160.0/20");
      [by vm_compute | reflexivity | reflexivity | right; by exists "x"].
Defined.

(** C2 as stated fails.  Read with the hostnames of the data model, the
    claim rejects the text of a CIDR entry, which the code accepts; read
    with every entry as a hostname, the claim accepts a label in front of a
    wildcard entry, which the code rejects; read with every entry but the
    wildcard patterns as a hostname, the claim rejects the text of a
    wildcard entry, which the code accepts. *)
Lemma filter_claim_counterexample :
  (_is_telegram_address default_config "149.154.160.0/20" = true /\
   spec_filter not_cidr default_config "149.154.160.0/20" = false) /\
  (_is_telegram_address wildcard_config "a.*.telegram.org" = false /\
   spec_filter any_entry wildcard_config "a.*.telegram.org" = true) /\
  (_is_telegram_address wildcard_config "*.telegram.org" = true /\
   spec_filter not_wildcard wildcard_config "*.telegram.org" = false).
Proof. by vm_compute. Qed.

(** ** The rate limiter *)

Section RateLimiterProperties.
Implicit Types (q ts : list Z) (st : ServerState).

Local Abbreviation sorted := (StronglySorted Z.le).

Lemma filter_keeps_all (c : Z) q :
  Forall (fun t => c < t)%Z q -> filter (fun t => c < t)%Z q = q.
Proof.
  induction 1 as [|t q Ht _ IH]; [done|].
  rewrite filter_cons_True by done. by rewrite IH.
Qed.

(** On a record in arrival order the loop removes exactly the times at or
    before the cutoff. *)
Lemma prune_sorted (c : Z) q :
  sorted q -> prune c q = filter (fun t => c < t)%Z q.
Proof.
  induction 1 as [|t q Hq IH Hall]; [done|]. simpl.
  destruct (Z.leb_spec t c) as [Hle|Hlt].
  - rewrite filter_cons_False by lia. done.
  - symmetry. apply filter_keeps_all. constructor; [done|].
    eapply Forall_impl; [exact Hall|]. simpl. lia.
Qed.

Lemma prune_keeps_all (c : Z) q :
  Forall (fun t => c < t)%Z q -> prune c q = q.
Proof.
  destruct 1 as [|t q Ht _]; [done|]. simpl.
  destruct (Z.leb_spec t c); [lia | done].
Qed.

Lemma prune_length (c : Z) q : (List.length (prune c q) <= List.length q)%nat.
Proof.
  induction q as [|t q IH]; simpl; [lia|].
  destruct (t <=? c)%Z; simpl; lia.
Qed.

Lemma prune_suffix (c : Z) q : exists dropped, q = dropped ++ prune c q.
Proof.
  induction q as [|t q [d Hd]]; simpl; [by exists []|].
  destruct (t <=? c)%Z; [|by exists []].
  exists (t :: d). simpl. by f_equal.
Qed.

Lemma sorted_snoc q (now : Z) :
  sorted q -> Forall (fun t => t <= now)%Z q -> sorted (q ++ [now]).
Proof.
  intros Hq Hle. induction Hq as [|t q Hq IH Hall]; simpl.
  - repeat constructor.
  - apply Forall_cons in Hle as [Ht Hle]. constructor; [by apply IH|].
    apply Forall_app. split; [done|]. by constructor.
Qed.

Lemma sorted_suffix (d q : list Z) : sorted (d ++ q) -> sorted q.
Proof.
  induction d as [|t d IH]; simpl; [done|].
  intros Hs. apply IH. by apply StronglySorted_inv in Hs as [Hs _].
Qed.

Variable self : RateLimiter.
Variable client_ip : string.
Hypothesis not_exempt : limiter_exempt client_ip = false.

Local Abbreviation W := (window_seconds self).
Local Abbreviation limit := (max_requests self).

Lemma record_insert (q : list Z) (m : gmap string (list Z)) (hits conns : nat) :
  record client_ip {| requests := <[client_ip := q]> m;
                      RATE_LIMIT_HITS := hits;
                      CONNECTION_COUNTER := conns |} = q.
Proof. unfold record. simpl. by rewrite lookup_insert_eq. Qed.

Lemma is_allowed_admit (now : Z) st :
  (Z.of_nat (List.length (prune (now - W) (record client_ip st))) < limit)%Z ->
  is_allowed self client_ip now st =
    (true,
     {| requests := <[client_ip := prune (now - W) (record client_ip st) ++ [now]]>
                      (requests st);
        RATE_LIMIT_HITS := RATE_LIMIT_HITS st;
        CONNECTION_COUNTER := CONNECTION_COUNTER st |}).
Proof.
  intros Hlt. unfold is_allowed, record in *. rewrite not_exempt.
  destruct (Z.leb_spec limit
    (Z.of_nat (List.length (prune (now - W) (default [] (requests st !! client_ip))))));
    [lia | done].
Qed.

Lemma is_allowed_reject (now : Z) st :
  (limit <= Z.of_nat (List.length (prune (now - W) (record client_ip st))))%Z ->
  is_allowed self client_ip now st =
    (false,
     {| requests := <[client_ip := prune (now - W) (record client_ip st)]>
                      (requests st);
        RATE_LIMIT_HITS := S (RATE_LIMIT_HITS st);
        CONNECTION_COUNTER := CONNECTION_COUNTER st |}).
Proof.
  intros Hle. unfold is_allowed, record in *. rewrite not_exempt.
  destruct (Z.leb_spec limit
    (Z.of_nat (List.length (prune (now - W) (default [] (requests st !! client_ip))))));
    [done | lia].
Qed.

Lemma admissions_app ts1 ts2 st :
  admissions self client_ip (ts1 ++ ts2) st =
    let '(oks1, st1) := admissions self client_ip ts1 st in
    let '(oks2, st2) := admissions self client_ip ts2 st1 in
    (oks1 ++ oks2, st2).
Proof.
  revert st. induction ts1 as [|t ts1 IH]; intros st; simpl.
  - by destruct (admissions self client_ip ts2 st).
  - destruct (is_allowed self client_ip t st) as [ok st1].
    rewrite IH.
    destruct (admissions self client_ip ts1 st1) as [oks1 st2].
    by destruct (admissions self client_ip ts2 st2).
Qed.

(** While the record stays below the limit and nothing has left the
    window, every check is admitted and appended. *)
Lemma admissions_all_admitted (first : Z) ts st :
  Forall (fun t => first <= t)%Z (record client_ip st ++ ts) ->
  Forall (fun t => t < first + W)%Z ts ->
  (Z.of_nat (List.length (record client_ip st) + List.length ts) <= limit)%Z ->
  exists st',
    admissions self client_ip ts st = (repeat true (List.length ts), st') /\
    record client_ip st' = record client_ip st ++ ts /\
    RATE_LIMIT_HITS st' = RATE_LIMIT_HITS st.
Proof.
  revert st. induction ts as [|t ts IH]; intros st Hlo Hhi Hlen.
  - exists st. by rewrite app_nil_r.
  - apply Forall_cons in Hhi as [Ht Hhi].
    assert (Hkeep : prune (t - W) (record client_ip st) = record client_ip st).
    { apply prune_keeps_all. apply Forall_app in Hlo as [Hlo _].
      eapply Forall_impl; [exact Hlo|]. simpl. lia. }
    simpl in Hlen. simpl admissions.
    rewrite is_allowed_admit by (rewrite Hkeep; lia). rewrite Hkeep.
    set (st1 := {| requests := _ |}).
    assert (Hrec : record client_ip st1 = record client_ip st ++ [t]).
    { apply record_insert. }
    destruct (IH st1) as (st' & Hrun & Hrec' & Hhits).
    + rewrite Hrec, <- app_assoc. exact Hlo.
    + exact Hhi.
    + rewrite Hrec, length_app. simpl. lia.
    + exists st'. rewrite Hrun. split; [done|]. split; [|done].
      rewrite Hrec', Hrec, <- app_assoc. done.
Qed.

Lemma sorted_snoc_bounds q (last : Z) :
  sorted (q ++ [last]) ->
  Forall (fun t => hd last q <= t /\ t <= last)%Z q.
Proof.
  destruct q as [|first q]; [constructor|]. simpl. intros Hs.
  apply StronglySorted_inv in Hs as [Hs Hall].
  apply Forall_app in Hall as [Hall Hlast].
  apply Forall_cons in Hlast as [Hlast _].
  constructor; [lia|].
  assert (Hq : Forall (fun t => t <= last)%Z q).
  { clear Hall Hlast. induction q as [|t q IH]; [constructor|].
    simpl in Hs. apply StronglySorted_inv in Hs as [Hs Hall].
    constructor; [|by apply IH].
    apply Forall_app in Hall as [_ Hl]. by apply Forall_cons in Hl as [Hl _]. }
  apply Forall_and. split; [done|]. done.
Qed.

(** A burst: [N] checks that fill an empty record, then one more within
    the window of the first. *)
Lemma admissions_burst (N : nat) st (first_n : list Z) (t_last : Z) :
  limit = Z.of_nat N ->
  record client_ip st = [] ->
  List.length first_n = N ->
  sorted (first_n ++ [t_last]) ->
  (t_last < hd t_last first_n + W)%Z ->
  exists st',
    admissions self client_ip (first_n ++ [t_last]) st =
      (repeat true N ++ [false], st') /\
    record client_ip st' = first_n /\
    RATE_LIMIT_HITS st' = S (RATE_LIMIT_HITS st).
Proof.
  intros Hlimit Hempty Hlen Hsorted Hwithin.
  pose proof (sorted_snoc_bounds _ _ Hsorted) as Hbounds.
  apply Forall_and in Hbounds as [Hlo Hhi].
  destruct (admissions_all_admitted (hd t_last first_n) first_n st)
    as (st1 & Hrun & Hrec & Hhits).
  { by rewrite Hempty. }
  { eapply Forall_impl; [exact Hhi|]. simpl. lia. }
  { rewrite Hempty. simpl. lia. }
  rewrite Hempty in Hrec. simpl in Hrec.
  assert (Hkeep : prune (t_last - W) (record client_ip st1) = first_n).
  { rewrite Hrec. apply prune_keeps_all.
    eapply Forall_impl; [exact Hlo|]. simpl. lia. }
  rewrite admissions_app, Hrun. simpl admissions.
  rewrite is_allowed_reject by (rewrite Hkeep; lia). rewrite Hkeep, Hlen.
  eexists. split; [reflexivity|]. split.
  - apply record_insert.
  - simpl. by rewrite Hhits.
Qed.

(** C4.  For an address outside the limiter's exemption list, limit [N]
    and window [W]: a check first drops the recorded times at or before
    [now - W] (those [W] or more seconds old), admits exactly when fewer
    than [N] remain, and records the current time only on admission (the
    record stays in arrival order while the clock does not run backwards).
    So, from an empty record, the [N+1]-th connection arriving less than
    [W] seconds after the first is rejected, and a connection arriving once
    [W] seconds have passed since the first is admitted. *)
Theorem sliding_window_admission (N : nat) :
  limit = Z.of_nat N ->
  (forall now st,
     sorted (record client_ip st) ->
     let kept := filter (fun t => now - W < t)%Z (record client_ip st) in
     let result := is_allowed self client_ip now st in
     result.1 = bool_decide (List.length kept < N)%nat /\
     record client_ip result.2 = (if result.1 then kept ++ [now] else kept) /\
     (Forall (fun t => t <= now)%Z (record client_ip st) ->
      sorted (record client_ip result.2) /\
      Forall (fun t => t <= now)%Z (record client_ip result.2)))
  /\
  (forall st first_n t_last,
     record client_ip st = [] ->
     List.length first_n = N ->
     sorted (first_n ++ [t_last]) ->
     (t_last < hd t_last first_n + W)%Z ->
     (admissions self client_ip (first_n ++ [t_last]) st).1 =
       repeat true N ++ [false])
  /\
  (forall st first_n t_last later,
     record client_ip st = [] ->
     List.length first_n = N ->
     sorted (first_n ++ [t_last]) ->
     (t_last < hd t_last first_n + W)%Z ->
     (0 < N)%nat ->
     (hd t_last first_n + W <= later)%Z ->
     (is_allowed self client_ip later
        (admissions self client_ip (first_n ++ [t_last]) st).2).1 = true).
Proof.
  intros Hlimit. split; [|split].
  - intros now st Hsorted kept result. subst kept result.
    rewrite <- prune_sorted by done.
    destruct (prune_suffix (now - W) (record client_ip st)) as [dropped Hdrop].
    assert (Hkept : sorted (prune (now - W) (record client_ip st))).
    { apply (sorted_suffix dropped). by rewrite <- Hdrop. }
    destruct (Z.ltb_spec
      (Z.of_nat (List.length (prune (now - W) (record client_ip st)))) limit)
      as [Hlt|Hge].
    + rewrite is_allowed_admit by done. simpl.
      rewrite bool_decide_eq_true_2 by lia.
      rewrite record_insert.
      split; [done|]. split; [done|]. intros Hpast.
      assert (Forall (fun t => t <= now)%Z (prune (now - W) (record client_ip st))).
      { rewrite Hdrop in Hpast. by apply Forall_app in Hpast as [_ ?]. }
      split; [by apply sorted_snoc|].
      apply Forall_app. split; [done|]. constructor; [lia|constructor].
    + rewrite is_allowed_reject by done. simpl.
      rewrite bool_decide_eq_false_2 by lia.
      rewrite record_insert.
      split; [done|]. split; [done|]. intros Hpast. split; [done|].
      rewrite Hdrop in Hpast. by apply Forall_app in Hpast as [_ ?].
  - intros st first_n t_last Hempty Hlen Hsorted Hwithin.
    destruct (admissions_burst N st first_n t_last) as (st' & -> & _); done.
  - intros st first_n t_last later Hempty Hlen Hsorted Hwithin Hpos Hlater.
    destruct (admissions_burst N st first_n t_last) as (st' & -> & Hrec & _);
      [done..|]. simpl.
    rewrite is_allowed_admit; [done|]. rewrite Hrec.
    destruct first_n as [|first rest]; [simpl in Hlen; lia|].
    simpl in Hlater. simpl prune.
    destruct (Z.leb_spec first (later - W)); [|lia].
    pose proof (prune_length (later - W) rest). simpl in Hlen. lia.
Qed.

End RateLimiterProperties.

Lemma sliding_window_admission_witness :
  (admissions burst_limiter "203.0.113.5" [0; 10; 20]%Z initial_state).1
    = [true; true; false] /\
  (is_allowed burst_limiter "203.0.113.5" 60
     (admissions burst_limiter "203.0.113.5" [0; 10; 20]%Z initial_state).2).1
    = true.
Proof.
  destruct (sliding_window_admission burst_limiter "203.0.113.5" eq_refl 2%nat eq_refl)
    as (_ & Hburst & Hlater).
  assert (Hsorted : StronglySorted Z.le ([0; 10] ++ [20])%Z).
  { repeat constructor; lia. }
  split.
  - apply (Hburst initial_state [0; 10]%Z 20%Z);
      [reflexivity | reflexivity | exact Hsorted | simpl; lia].
  - apply (Hlater initial_state [0; 10]%Z 20%Z 60%Z);
      [reflexivity | reflexivity | exact Hsorted | simpl; lia | lia | simpl; lia].
Defined.

(** The scenario of the specification: with ten connections allowed per
    minute, the eleventh within the window is closed before anything is
    read or written. *)
Example eleventh_connection_closed :
  let env := example_env {| rate_limit_per_ip := 10; rate_limit_window := 60;
                            auth_required := true;
                            telegram_domains := default_telegram_domains |} true in
  let st := (admissions (new_rate_limiter (config env)) "203.0.113.5"
               [0; 1; 2; 3; 4; 5; 6; 7; 8; 9]%Z initial_state).2 in
  (handle_client env "203.0.113.5" 30 [[x05; x01; x02]] st).1 = [EvClose].
Proof. by vm_compute. Qed.

(** ** Bytes on the wire *)

Lemma pack_B_value (n : N) :
  (n <= 255)%N -> u8 (pack_B n) 0 = N.to_nat n.
Proof.
  intros Hn. unfold u8, pack_B. simpl.
  destruct (Byte.of_N n) as [b|] eqn:Hb.
  - simpl. rewrite Byte.to_nat_via_N. by rewrite (Byte.to_of_N _ Hb).
  - apply Byte.of_N_None_iff in Hb. lia.
Qed.

Lemma pack_B_cons (n : N) (rest : bytes) :
  pack_B n ++ rest = default x00 (Byte.of_N n) :: rest.
Proof. reflexivity. Qed.

Lemma byte_value (n : N) :
  (n <= 255)%N -> Byte.to_nat (default x00 (Byte.of_N n)) = N.to_nat n.
Proof. apply pack_B_value. Qed.

Lemma pack_H_length (n : N) : List.length (pack_H n) = 2%nat.
Proof. reflexivity. Qed.

Lemma unpack_pack_H (before : bytes) (port : N) (after : bytes) :
  (port < 65536)%N ->
  unpack_H (before ++ pack_H port ++ after) (List.length before) = N.to_nat port.
Proof.
  intros Hport. unfold unpack_H, u8.
  rewrite (app_nth2 before) by lia. rewrite (app_nth2 before) by lia.
  replace (List.length before - List.length before)%nat with 0%nat by lia.
  replace (List.length before + 1 - List.length before)%nat with 1%nat by lia.
  unfold pack_H, pack_B. cbn [nth app].
  assert (port / 256 <= 255)%N.
  { apply N.lt_succ_r. apply N.Div0.div_lt_upper_bound. lia. }
  assert (port mod 256 < 256)%N by (apply N.mod_lt; lia).
  rewrite !byte_value by lia.
  pose proof (N.div_mod port 256 ltac:(lia)). lia.
Qed.

Lemma slice_middle {A} (before middle after : list A) :
  slice (before ++ middle ++ after) (List.length before)
        (List.length before + List.length middle) = middle.
Proof.
  unfold slice. rewrite drop_app_length.
  replace (List.length before + List.length middle - List.length before)%nat
    with (List.length middle) by lia.
  apply take_app_length.
Qed.

Lemma byte_to_nat_inj (a b : byte) : Byte.to_nat a = Byte.to_nat b -> a = b.
Proof.
  intros Hab. pose proof (Byte.of_to_nat a) as Ha.
  rewrite Hab, Byte.of_to_nat in Ha. by injection Ha.
Qed.

(** ** The SOCKS5 engine *)

Section EngineProperties.
Context `{Platform}.
Implicit Types (env : Env) (s : session) (data : bytes).

Lemma read_whole (n : nat) data (rest : list bytes) (tr : list event) :
  (List.length data <= n)%nat ->
  read n {| pending := data :: rest; trace := tr |} =
    (data, {| pending := rest; trace := tr |}).
Proof.
  intros Hlen. unfold read. simpl.
  rewrite take_ge by done.
  by destruct (Nat.leb_spec (List.length data) n); [|lia].
Qed.

Lemma read_first (n : nat) data (rest : list bytes) (tr : list event) :
  (read n {| pending := data :: rest; trace := tr |}).1 = firstn n data.
Proof. reflexivity. Qed.

Lemma read_trace (n : nat) s : trace (read n s).2 = trace s.
Proof. unfold read. by destruct (pending s). Qed.

Lemma continues_refl env s : continues env s s.
Proof. exists []. by rewrite app_nil_r. Qed.

Lemma continues_trans env s1 s2 s3 :
  continues env s1 s2 -> continues env s2 s3 -> continues env s1 s3.
Proof.
  intros (e1 & H1 & F1) (e2 & H2 & F2). exists (e1 ++ e2).
  split; [by rewrite H2, H1, app_assoc | by apply Forall_app].
Qed.

Lemma continues_emit env (e : event) s :
  allowed_dial env e -> continues env s (emit e s).
Proof. intros He. exists [e]. split; [done | by constructor]. Qed.

Lemma continues_read env (n : nat) s : continues env s (read n s).2.
Proof. exists []. by rewrite read_trace, app_nil_r. Qed.

Lemma connect_target_continues env (addr : string) (port : nat) s :
  continues env s (connect_target env addr port s).
Proof.
  unfold connect_target.
  destruct (_is_telegram_address (config env) addr) eqn:Hfilter; simpl.
  - destruct (open_connection env addr port).
    + eapply continues_trans; [by apply (continues_emit env (EvDial addr port))|].
      eapply continues_trans; by apply continues_emit.
    + eapply continues_trans; [by apply (continues_emit env (EvDial addr port))|].
      by apply continues_emit.
  - by apply continues_emit.
Qed.

Lemma request_continues env s : continues env s (_handle_socks5_request env s).
Proof.
  unfold _handle_socks5_request.
  pose proof (continues_read env 262 s) as Hread.
  destruct (read 262 s) as [data s1]. simpl in Hread.
  eapply continues_trans; [exact Hread|].
  repeat case_match;
    first [ apply continues_refl
          | apply connect_target_continues
          | by apply continues_emit ].
Qed.

Lemma authentication_continues env s :
  continues env s (_handle_authentication env s).2.
Proof.
  unfold _handle_authentication.
  pose proof (continues_read env 513 s) as Hread.
  destruct (read 513 s) as [data s1]. simpl in Hread.
  eapply continues_trans; [exact Hread|].
  repeat case_match; simpl;
    first [ apply continues_refl | by apply continues_emit ].
Qed.

Lemma handshake_continues env s :
  continues env s (_handle_socks5_handshake env s).
Proof.
  unfold _handle_socks5_handshake.
  pose proof (continues_read env 262 s) as Hread.
  destruct (read 262 s) as [data s1]. simpl in Hread.
  eapply continues_trans; [exact Hread|].
  destruct (List.length data <? 3)%nat; [apply continues_refl|].
  destruct (negb _); [apply continues_refl|].
  destruct (auth_required (config env)); cbn [andb].
  - destruct (negb _); [by apply continues_emit|].
    set (s2 := emit _ s1).
    assert (Hs2 : continues env s1 s2) by (by apply continues_emit).
    pose proof (authentication_continues env s2) as Hauth.
    destruct (_handle_authentication env s2) as [ok s3]. simpl in Hauth.
    eapply continues_trans; [exact Hs2|].
    eapply continues_trans; [exact Hauth|].
    destruct ok; simpl; [apply request_continues | apply continues_refl].
  - set (s2 := emit _ s1).
    assert (Hs2 : continues env s1 s2) by (by apply continues_emit).
    eapply continues_trans; [exact Hs2|]. simpl. apply request_continues.
Qed.

(** The trace of a whole session: what the handshake did, then the close
    of [handle_client]'s [finally]. *)
Lemma handle_client_trace env (client_ip : string) (now : Z)
    (input : list bytes) (st : ServerState) :
  exists events,
    (handle_client env client_ip now input st).1 = events ++ [EvClose] /\
    Forall (allowed_dial env) events.
Proof.
  unfold handle_client.
  destruct (admission env client_ip now st) as [admitted st1].
  destruct admitted; simpl.
  - destruct (handshake_continues env {| pending := input; trace := [] |})
      as (events & Htrace & Hsafe).
    exists events. simpl in Htrace. by rewrite Htrace.
  - by exists [].
Qed.

(** What the engine does with a request of at least ten bytes that names
    version 5 and the CONNECT command. *)
Lemma request_dispatch env data (rest : list bytes) (tr : list event) :
  (10 <= List.length data <= 262)%nat ->
  u8 data 0 = 5%nat -> u8 data 1 = 1%nat ->
  let s := {| pending := rest; trace := tr |} in
  _handle_socks5_request env {| pending := data :: rest; trace := tr |} =
    match u8 data 3 with
    | 1 => connect_target env (inet_ntoa (slice data 4 8)) (unpack_H data 8) s
    | 3 =>
        if (List.length data <? 5 + u8 data 4 + 2)%nat then s
        else connect_target env
               (decode_utf8_ignore (slice data 5 (5 + u8 data 4)))
               (unpack_H data (5 + u8 data 4)) s
    | 4 =>
        if (List.length data <? 22)%nat then s
        else connect_target env (inet_ntop6 (slice data 4 20)) (unpack_H data 20) s
    | _ => emit (EvWrite (reply 8)) s
    end.
Proof.
  intros [Hmin Hmax] Hversion Hcmd s.
  unfold _handle_socks5_request. rewrite read_whole by done.
  rewrite Hversion, Hcmd.
  assert (Hten : (List.length data <? 10)%nat = false) by (apply Nat.ltb_ge; lia).
  assert (Hfive : (List.length data <? 5)%nat = false) by (apply Nat.ltb_ge; lia).
  rewrite Hten, Hfive.
  change (negb (5 =? SOCKS_VERSION)%nat || negb (1 =? 1)%nat) with false.
  cbv iota.
  destruct (u8 data 3) as [|[|[|[|[|n]]]]]; reflexivity.
Qed.

End EngineProperties.

Lemma unpack_pack_H_end (before : bytes) (port : N) :
  (port < 65536)%N ->
  unpack_H (before ++ pack_H port) (List.length before) = N.to_nat port.
Proof.
  intros Hport. rewrite <- (app_nil_r (pack_H port)).
  by apply unpack_pack_H.
Qed.

Section EngineClaims.
Context `{Platform}.
Implicit Types (env : Env) (s : session) (data : bytes).

Lemma connect_request_length (t : target) (port : N) :
  List.length (connect_request t port) =
    match t with
    | TargetIPv4 address => (6 + List.length address)%nat
    | TargetDomain name => (7 + List.length name)%nat
    | TargetIPv6 address => (6 + List.length address)%nat
    end.
Proof.
  destruct t; unfold connect_request, socks_request, target_field;
    rewrite !length_app, pack_H_length; simpl; lia.
Qed.

(** A well-formed CONNECT request of at least ten bytes reaches the
    security check with the address and port that the client named. *)
Lemma connect_request_parsed env (t : target) (port : N)
    (rest : list bytes) (tr : list event) :
  well_formed_target t ->
  (port < 65536)%N ->
  (10 <= List.length (connect_request t port))%nat ->
  _handle_socks5_request env
    {| pending := connect_request t port :: rest; trace := tr |} =
  connect_target env (target_text t) (N.to_nat port)
    {| pending := rest; trace := tr |}.
Proof.
  intros Hwf Hport Hlen.
  pose proof (connect_request_length t port) as Hsize.
  destruct t as [address|name|address]; simpl in Hwf.
  - rewrite request_dispatch by (rewrite ?Hsize; done || lia).
    change (u8 (connect_request (TargetIPv4 address) port) 3) with 1%nat.
    cbv iota. f_equal.
    + simpl target_text. f_equal.
      replace 8%nat with (4 + List.length address)%nat by (rewrite Hwf; done).
      apply (slice_middle [x05; x01; x00; x01] address (pack_H port)).
    + change (connect_request (TargetIPv4 address) port)
        with (([x05; x01; x00; x01] ++ address) ++ pack_H port).
      replace 8%nat with (List.length ([x05; x01; x00; x01] ++ address))
        by (rewrite length_app, Hwf; done).
      by apply unpack_pack_H_end.
  - rewrite request_dispatch by (rewrite ?Hsize; done || lia).
    change (u8 (connect_request (TargetDomain name) port) 3) with 3%nat.
    assert (Hn : u8 (connect_request (TargetDomain name) port) 4 = List.length name).
    { change (u8 (connect_request (TargetDomain name) port) 4)
        with (Byte.to_nat (default x00 (Byte.of_N (N.of_nat (List.length name))))).
      rewrite byte_value by lia. lia. }
    cbv iota. rewrite Hn, Hsize.
    destruct (Nat.ltb_spec (7 + List.length name) (5 + List.length name + 2));
      [lia|].
    f_equal.
    + simpl target_text. f_equal.
      apply (slice_middle
        [x05; x01; x00; x03; default x00 (Byte.of_N (N.of_nat (List.length name)))]
        name (pack_H port)).
    + change (connect_request (TargetDomain name) port)
        with (([x05; x01; x00; x03;
                default x00 (Byte.of_N (N.of_nat (List.length name)))] ++ name)
              ++ pack_H port).
      replace (5 + List.length name)%nat
        with (List.length ([x05; x01; x00; x03;
                default x00 (Byte.of_N (N.of_nat (List.length name)))] ++ name))
        by (rewrite length_app; done).
      by apply unpack_pack_H_end.
  - rewrite request_dispatch by (rewrite ?Hsize; done || lia).
    change (u8 (connect_request (TargetIPv6 address) port) 3) with 4%nat.
    cbv iota. rewrite Hsize, Hwf.
    change (6 + 16 <? 22)%nat with false. cbv iota. f_equal.
    + simpl target_text. f_equal.
      replace 20%nat with (4 + List.length address)%nat by (rewrite Hwf; done).
      apply (slice_middle [x05; x01; x00; x04] address (pack_H port)).
    + change (connect_request (TargetIPv6 address) port)
        with (([x05; x01; x00; x04] ++ address) ++ pack_H port).
      replace 20%nat with (List.length ([x05; x01; x00; x04] ++ address))
        by (rewrite length_app, Hwf; done).
      by apply unpack_pack_H_end.
Qed.

(** C1, amended.  For every well-formed CONNECT request of at least ten
    bytes (any IPv4 or IPv6 request, any domain request with a name of
    three bytes or more) whose target the domain filter does not accept, the
    engine answers with exactly the ten-byte reply with code 2 and returns
    without dialing; and no session, whatever its input, dials that target:
    every session ends with the close of the client connection. *)
Theorem rejected_target_not_dialed env (t : target) (port : N)
    (rest : list bytes) (tr : list event) :
  well_formed_target t ->
  (port < 65536)%N ->
  (10 <= List.length (connect_request t port))%nat ->
  _is_telegram_address (config env) (target_text t) = false ->
  _handle_socks5_request env
    {| pending := connect_request t port :: rest; trace := tr |} =
    {| pending := rest; trace := tr ++ [EvWrite (reply 2)] |}
  /\
  (forall client_ip now input st,
     exists events,
       (handle_client env client_ip now input st).1 = events ++ [EvClose] /\
       forall dialed_port, EvDial (target_text t) dialed_port ∉ events).
Proof.
  intros Hwf Hport Hlen Hreject. split.
  - rewrite connect_request_parsed by done.
    unfold connect_target. by rewrite Hreject.
  - intros client_ip now input st.
    destruct (handle_client_trace env client_ip now input st)
      as (events & Htrace & Hsafe).
    exists events. split; [done|]. intros dialed_port Hin.
    rewrite Forall_forall in Hsafe. specialize (Hsafe _ Hin). simpl in Hsafe.
    congruence.
Qed.

(** C9.  A domain-type CONNECT request with a name of [n] bytes occupies
    [7 + n] bytes; when the name has two bytes or fewer the request, though
    well-formed, is dropped without any reply: the engine returns at once
    on any request of fewer than ten bytes. *)
Theorem short_domain_request_dropped env (name : bytes) (port : N)
    (rest : list bytes) (tr : list event) :
  (List.length name <= 2)%nat ->
  List.length (connect_request (TargetDomain name) port)
    = (7 + List.length name)%nat /\
  _handle_socks5_request env
    {| pending := connect_request (TargetDomain name) port :: rest;
       trace := tr |} =
    {| pending := rest; trace := tr |} /\
  (forall data,
     (List.length data < 10)%nat ->
     _handle_socks5_request env {| pending := data :: rest; trace := tr |} =
       {| pending := rest; trace := tr |}).
Proof.
  intros Hshort.
  assert (Hminimum : forall data,
            (List.length data < 10)%nat ->
            _handle_socks5_request env {| pending := data :: rest; trace := tr |} =
              {| pending := rest; trace := tr |}).
  { intros data Hlen. unfold _handle_socks5_request.
    rewrite read_whole by lia.
    by destruct (Nat.ltb_spec (List.length data) 10); [|lia]. }
  pose proof (connect_request_length (TargetDomain name) port) as Hsize.
  cbv iota in Hsize. split; [done|]. split; [|done].
  apply Hminimum. lia.
Qed.

Lemma handshake_bad_version env data (rest : list bytes) (tr : list event) :
  u8 data 0 <> 5%nat ->
  trace (_handle_socks5_handshake env {| pending := data :: rest; trace := tr |})
    = tr.
Proof.
  intros Hversion. unfold _handle_socks5_handshake, read. simpl pending.
  cbv beta iota zeta.
  destruct (List.length (take 262 data) <? 3)%nat; [done|].
  assert (Hv : u8 (take 262 data) 0 = u8 data 0).
  { unfold u8. by rewrite nth_firstn. }
  rewrite Hv. unfold SOCKS_VERSION.
  by destruct (Nat.eqb_spec (u8 data 0) 5).
Qed.

(** C5, amended.  When the greeting carries a version byte other than 5 the
    server sends nothing and the session consists of the close alone.  When
    the request message carries a version byte other than 5, a request of
    at least ten bytes is answered with the ten-byte reply with code 7 and
    nothing else; a shorter one gets no reply. *)
Theorem unsupported_version env data (rest : list bytes) (tr : list event) :
  u8 data 0 <> 5%nat ->
  trace (_handle_socks5_handshake env {| pending := data :: rest; trace := tr |})
    = tr
  /\
  (forall client_ip now st,
     (handle_client env client_ip now (data :: rest) st).1 = [EvClose])
  /\
  trace (_handle_socks5_request env {| pending := data :: rest; trace := tr |})
    = if (List.length data <? 10)%nat then tr else tr ++ [EvWrite (reply 7)].
Proof.
  intros Hversion. split; [by apply handshake_bad_version|]. split.
  - intros client_ip now st. unfold handle_client.
    destruct (admission env client_ip now st) as [[|] st1]; simpl; [|done].
    by rewrite handshake_bad_version.
  - unfold _handle_socks5_request, read. simpl pending. cbv beta iota zeta.
    assert (Hlen : (List.length (take 262 data) <? 10)%nat
                   = (List.length data <? 10)%nat).
    { rewrite length_take.
      destruct (Nat.ltb_spec (List.length data) 10);
        [apply Nat.ltb_lt | apply Nat.ltb_ge]; lia. }
    rewrite Hlen. destruct (List.length data <? 10)%nat; [done|].
    assert (Hv : u8 (take 262 data) 0 = u8 data 0).
    { unfold u8. by rewrite nth_firstn. }
    rewrite Hv. unfold SOCKS_VERSION.
    by destruct (Nat.eqb_spec (u8 data 0) 5).
Qed.

Lemma greeting_read env (methods : bytes) (rest : list bytes) :
  methods <> [] ->
  (List.length methods <= 255)%nat ->
  _handle_socks5_handshake env
    {| pending := greeting methods :: rest; trace := [] |} =
  let s := {| pending := rest; trace := [] |} in
  if auth_required (config env) && negb (bool_decide (x02 ∈ methods)) then
    emit (EvWrite [x05; xff]) s
  else
    let s :=
      emit (EvWrite [x05; if auth_required (config env) then x02 else x00]) s in
    let '(authenticated, s) :=
      if auth_required (config env) then _handle_authentication env s
      else (true, s) in
    if negb authenticated then s else _handle_socks5_request env s.
Proof.
  intros Hne Hmax.
  assert (Hsize : List.length (greeting methods) = (2 + List.length methods)%nat).
  { unfold greeting. rewrite !length_app. simpl. lia. }
  assert (Hpos : (1 <= List.length methods)%nat).
  { destruct methods; [done | simpl; lia]. }
  unfold _handle_socks5_handshake. rewrite read_whole by lia.
  rewrite Hsize.
  destruct (Nat.ltb_spec (2 + List.length methods) 3); [lia|].
  change (u8 (greeting methods) 0) with 5%nat.
  change (negb (5 =? SOCKS_VERSION)%nat) with false. cbv iota.
  assert (Hn : u8 (greeting methods) 1 = List.length methods).
  { change (u8 (greeting methods) 1)
      with (Byte.to_nat (default x00 (Byte.of_N (N.of_nat (List.length methods))))).
    rewrite byte_value by lia. lia. }
  rewrite Hn.
  assert (Hslice : slice (greeting methods) 2 (2 + List.length methods) = methods).
  { pose proof (slice_middle
      [x05; default x00 (Byte.of_N (N.of_nat (List.length methods)))]
      methods []) as Hs.
    rewrite app_nil_r in Hs. exact Hs. }
  rewrite Hslice.
  assert (Hoffered : bool_decide (2%nat ∈ map Byte.to_nat methods)
                     = bool_decide (x02 ∈ methods)).
  { apply bool_decide_ext. rewrite list_elem_of_fmap. split.
    - intros [b [Hb Hin]]. by rewrite (byte_to_nat_inj x02 b Hb).
    - intros Hin. by exists x02. }
  rewrite Hoffered. by destruct (auth_required (config env)).
Qed.

(** C6.  For every well-formed greeting (version 5 and a list of one to 255
    methods): when authentication is required and method 2 is offered the
    server's first reply is [05 02]; when authentication is not required it
    is [05 00]; when authentication is required and method 2 is not offered
    the server replies [05 FF] and the session ends there, no further
    message being read. *)
Theorem greeting_method_selection env (methods : bytes) (rest : list bytes) :
  methods <> [] ->
  (List.length methods <= 255)%nat ->
  let s := _handle_socks5_handshake env
             {| pending := greeting methods :: rest; trace := [] |} in
  (auth_required (config env) = true -> x02 ∈ methods ->
     exists more, trace s = EvWrite [x05; x02] :: more)
  /\
  (auth_required (config env) = false ->
     exists more, trace s = EvWrite [x05; x00] :: more)
  /\
  (auth_required (config env) = true -> x02 ∉ methods ->
     s = {| pending := rest; trace := [EvWrite [x05; xff]] |} /\
     forall client_ip now st,
       (handle_client env client_ip now (greeting methods :: rest) st).1
         = [EvClose] \/
       (handle_client env client_ip now (greeting methods :: rest) st).1
         = [EvWrite [x05; xff]; EvClose]).
Proof.
  intros Hne Hmax s. subst s. rewrite greeting_read by done. cbv zeta.
  split; [|split].
  - intros Hauth Hin. rewrite Hauth, bool_decide_eq_true_2 by done. simpl.
    set (s1 := emit _ _).
    pose proof (authentication_continues env s1) as (ev1 & Ht1 & _).
    destruct (_handle_authentication env s1) as [[|] s2]; simpl in *.
    + destruct (request_continues env s2) as (ev2 & Ht2 & _).
      rewrite Ht2, Ht1. by eexists.
    + rewrite Ht1. by eexists.
  - intros Hauth. rewrite Hauth. simpl.
    set (s1 := emit _ _).
    destruct (request_continues env s1) as (ev2 & Ht2 & _).
    rewrite Ht2. by eexists.
  - intros Hauth Hnot. rewrite Hauth, bool_decide_eq_false_2 by done. simpl.
    split; [done|]. intros client_ip now st. unfold handle_client.
    destruct (admission env client_ip now st) as [[|] st1]; simpl; [|by left].
    right. rewrite greeting_read by done.
    rewrite Hauth, bool_decide_eq_false_2 by done. done.
Qed.

(** C8.  A connection whose source address starts with "172." or "10.", or
    is one of "127.0.0.1", "::1" and "localhost", never meets the rate
    limiter: it is admitted whatever the state, no time is recorded, the
    rate-limit counter stays as it is, and the session goes on to the
    handshake. *)
Theorem exempt_source_bypasses_limiter env (client_ip : string) (now : Z)
    (input : list bytes) (st : ServerState) :
  startswith client_ip "172." = true \/
  startswith client_ip "10." = true \/
  client_ip ∈ ["127.0.0.1"; "::1"; "localhost"] ->
  admission env client_ip now st = (true, st) /\
  let result := handle_client env client_ip now input st in
  requests result.2 = requests st /\
  RATE_LIMIT_HITS result.2 = RATE_LIMIT_HITS st /\
  result.1 =
    trace (_handle_socks5_handshake env {| pending := input; trace := [] |})
    ++ [EvClose].
Proof.
  intros Hexempt.
  assert (Hadm : admission env client_ip now st = (true, st)).
  { unfold admission, is_docker_internal, limiter_exempt.
    destruct Hexempt as [H172 | [H10 | Hlocal]].
    - rewrite H172. simpl. by case_bool_decide.
    - rewrite H10, orb_true_r. simpl. by case_bool_decide.
    - by rewrite bool_decide_eq_true_2. }
  split; [done|]. unfold handle_client. by rewrite Hadm.
Qed.

End EngineClaims.

(** *** Concrete sessions *)

Lemma rejected_target_not_dialed_witness :
  _handle_socks5_request (example_env default_config true)
    {| pending :=
         [connect_request (TargetDomain (str_encode "evil.example.com")) 80];
       trace := [] |} =
    {| pending := []; trace := [EvWrite (reply 2)] |}.
Proof.
  refine (proj1 (rejected_target_not_dialed (example_env default_config true)
    (TargetDomain (str_encode "evil.example.com")) 80 [] [] _ _ _ _)).
  - vm_compute. lia.
  - lia.
  - vm_compute. lia.
  - vm_compute. reflexivity.
Defined.

(** C1 as stated fails: a well-formed CONNECT request for a two-byte name
    that the filter does not accept gets no reply at all, from the handler
    and in a whole authenticated session. *)
Lemma short_rejected_request_counterexample :
  let t := TargetDomain (str_encode "ab") in
  let env := example_env default_config true in
  (List.length (str_encode "ab") <= 255)%nat /\
  _is_telegram_address (config env) (target_text t) = false /\
  _handle_socks5_request env
    {| pending := [connect_request t 80]; trace := [] |} =
    {| pending := []; trace := [] |} /\
  (handle_client env "203.0.113.5" 0
     [ greeting [x02];
       [x01; x05] ++ str_encode "admin" ++ [x08] ++ str_encode "password";
       connect_request t 80 ] initial_state).1 =
    [EvWrite [x05; x02]; EvWrite [x01; x00]; EvClose].
Proof. split; [vm_compute; lia | by vm_compute]. Qed.

Lemma short_domain_request_dropped_witness :
  _handle_socks5_request (example_env default_config true)
    {| pending := [connect_request (TargetDomain (str_encode "ab")) 80];
       trace := [] |} =
    {| pending := []; trace := [] |}.
Proof.
  refine (proj1 (proj2 (short_domain_request_dropped
    (example_env default_config true) (str_encode "ab") 80 [] [] _))).
  vm_compute. lia.
Defined.

Lemma unsupported_version_witness :
  trace (_handle_socks5_request (example_env default_config true)
    {| pending := [[x04; x01; x00; x01; x00; x00; x00; x00; x00; x50]];
       trace := [] |}) =
    [EvWrite (reply 7)].
Proof.
  refine (proj2 (proj2 (unsupported_version (example_env default_config true)
    [x04; x01; x00; x01; x00; x00; x00; x00; x00; x50] [] [] _))).
  vm_compute. lia.
Defined.

(** C5 as stated fails for the request message: a request with version
    byte 4 is answered with the reply with code 7. *)
Lemma request_version_counterexample :
  let data := [x04; x01; x00; x01; x00; x00; x00; x00; x00; x50] in
  u8 data 0 = 4%nat /\
  (handle_client (example_env open_config true) "203.0.113.5" 0
     [greeting [x00]; data] initial_state).1 =
    [EvWrite [x05; x00];
     EvWrite [x05; x07; x00; x01; x00; x00; x00; x00; x00; x00];
     EvClose].
Proof. by vm_compute. Qed.

Lemma greeting_method_selection_witness :
  exists more,
    trace (_handle_socks5_handshake (example_env default_config true)
             {| pending := [greeting [x02]]; trace := [] |}) =
      EvWrite [x05; x02] :: more.
Proof.
  refine (proj1 (greeting_method_selection (example_env default_config true)
    [x02] [] _ _) _ _).
  - discriminate.
  - simpl. lia.
  - reflexivity.
  - apply list_elem_of_here.
Defined.

Lemma exempt_source_bypasses_limiter_witness :
  admission (example_env default_config true) "172.217.0.0" 0 initial_state
    = (true, initial_state).
Proof.
  refine (proj1 (exempt_source_bypasses_limiter (example_env default_config true)
    "172.217.0.0" 0 [] initial_state _)).
  left. reflexivity.
Defined.

(** A greeting without any method is two bytes long and is dropped like
    any greeting of fewer than three bytes. *)
Example empty_greeting_dropped :
  (handle_client (example_env open_config true) "203.0.113.5" 0
     [[x05; x00]] initial_state).1 = [EvClose].
Proof. by vm_compute. Qed.

(** The scenarios of the specification. *)
Example allowed_session :
  (handle_client (example_env default_config true) "203.0.113.5" 0
     [ [x05; x01; x02];
       [x01; x05] ++ str_encode "admin" ++ [x08] ++ str_encode "password";
       connect_request (TargetDomain (str_encode "api.telegram.org")) 443 ]
     initial_state).1 =
    [ EvWrite [x05; x02]; EvWrite [x01; x00];
      EvDial "api.telegram.org" 443;
      EvWrite [x05; x00; x00; x01; x00; x00; x00; x00; x00; x00];
      EvRelay; EvClose ].
Proof. by vm_compute. Qed.

Example rejected_session :
  (handle_client (example_env default_config true) "203.0.113.5" 0
     [ [x05; x01; x02];
       [x01; x05] ++ str_encode "admin" ++ [x08] ++ str_encode "password";
       connect_request (TargetDomain (str_encode "evil.example.com")) 80 ]
     initial_state).1 =
    [ EvWrite [x05; x02]; EvWrite [x01; x00];
      EvWrite [x05; x02; x00; x01; x00; x00; x00; x00; x00; x00];
      EvClose ].
Proof. by vm_compute. Qed.

(** ** The traffic obfuscator *)

Lemma bytes_prefix_length (p data : bytes) :
  bytes_prefix p data = true -> (List.length p <= List.length data)%nat.
Proof.
  revert data. induction p as [|a p IH]; intros [|b data]; simpl.
  - lia.
  - lia.
  - discriminate.
  - intros Hp. apply andb_true_iff in Hp as [_ Hp]. apply IH in Hp. lia.
Qed.

Lemma bytes_prefix_app (p data more : bytes) :
  bytes_prefix p data = true -> bytes_prefix p (data ++ more) = true.
Proof.
  revert data. induction p as [|a p IH]; intros [|b data]; simpl; try done.
  intros Hp. apply andb_true_iff in Hp as [Hab Hp].
  by rewrite Hab, IH.
Qed.

Lemma bytes_prefix_app_false (p data more : bytes) :
  bytes_prefix p data = false ->
  (List.length p <= List.length data)%nat ->
  bytes_prefix p (data ++ more) = false.
Proof.
  revert data. induction p as [|a p IH]; intros [|b data]; simpl.
  - discriminate.
  - discriminate.
  - lia.
  - intros Hp Hlen. apply andb_false_iff in Hp as [Hab | Hp].
    + by rewrite Hab.
    + rewrite IH by (done || lia). apply andb_false_r.
Qed.

Lemma split_first_length (sep data before after : bytes) :
  split_first sep data = Some (before, after) ->
  (List.length sep <= List.length data)%nat.
Proof.
  revert before after. induction data as [|b data IH]; intros before after.
  - simpl. destruct (bytes_prefix sep []) eqn:Hp; [|done].
    intros _. by apply bytes_prefix_length in Hp.
  - cbn [split_first]. destruct (bytes_prefix sep (b :: data)) eqn:Hp.
    + intros _. by apply bytes_prefix_length in Hp.
    + destruct (split_first sep data) as [[h t]|]; [|done].
      intros _. specialize (IH h t eq_refl). simpl. lia.
Qed.

(** The first occurrence of a separator stays the first when bytes are
    appended. *)
Lemma split_first_app (sep data more before after : bytes) :
  split_first sep data = Some (before, after) ->
  split_first sep (data ++ more) = Some (before, after ++ more).
Proof.
  revert before after. induction data as [|b data IH]; intros before after.
  - simpl. destruct (bytes_prefix sep []) eqn:Hp; [|done].
    intros [= <- <-]. apply bytes_prefix_length in Hp.
    destruct sep; [|simpl in Hp; lia]. simpl. by destruct more.
  - cbn [split_first]. destruct (bytes_prefix sep (b :: data)) eqn:Hp.
    + intros [= <- <-].
      change ((b :: data) ++ more) with (b :: data ++ more) at 1.
      cbn [split_first].
      change (b :: data ++ more) with ((b :: data) ++ more).
      rewrite (bytes_prefix_app _ _ more Hp).
      rewrite drop_app_le by (by apply bytes_prefix_length). done.
    + destruct (split_first sep data) as [[h t]|] eqn:Hrest; [|done].
      intros [= <- <-].
      change ((b :: data) ++ more) with (b :: data ++ more).
      cbn [split_first].
      change (b :: data ++ more) with ((b :: data) ++ more).
      rewrite bytes_prefix_app_false;
        [| done | apply split_first_length in Hrest; simpl; lia].
      change ((b :: data) ++ more) with (b :: data ++ more).
      by rewrite (IH h t eq_refl).
Qed.

(** Every header block ends with a line break, so the blank-line marker
    is first found two bytes early: the split leaves a line break in front
    of what follows the marker. *)
Lemma fake_headers_split (path agent : nat) :
  (path < List.length fake_paths)%nat ->
  (agent < List.length user_agents)%nat ->
  exists before,
    split_first (CRLF ++ CRLF)
      (str_encode (_generate_fake_http_headers path agent) ++ CRLF ++ CRLF)
    = Some (before, CRLF).
Proof.
  intros Hpath Hagent.
  destruct path as [|[|[|[|path]]]]; [| | | |simpl in Hpath; lia];
    (destruct agent as [|[|[|agent]]]; [| | |simpl in Hagent; lia]);
    vm_compute; eexists; reflexivity.
Qed.

Section ObfuscatorProperties.
Context `{CipherLaws}.

(** The search over padding sizes [k, k+1, ...] on the body that the split
    leaves: a line break, the token and the padding.  It reaches the true
    padding size at the latest, and an earlier success returns the same
    plaintext. *)
Lemma try_paddings_finds (n : nonce) (data pad : bytes) (count k : nat) :
  (1 <= k)%nat ->
  (k <= List.length pad < k + count)%nat ->
  try_paddings (seq k count) (CRLF ++ cipher_encrypt n data ++ pad) = Some data.
Proof.
  revert k. induction count as [|count IH]; intros k Hk Hrange; [lia|].
  cbn [seq try_paddings].
  destruct (Nat.ltb_spec 0 k); [|lia].
  set (token := cipher_encrypt n data).
  assert (Hstrip :
    take (List.length (CRLF ++ token ++ pad) - k) (CRLF ++ token ++ pad)
    = CRLF ++ token ++ take (List.length pad - k) pad).
  { rewrite !length_app.
    rewrite take_app_ge by (simpl; lia). f_equal.
    rewrite take_app_ge by lia. f_equal. f_equal. simpl. lia. }
  rewrite Hstrip, decrypt_skips_line_break.
  destruct (cipher_decrypt (token ++ take (List.length pad - k) pad))
    as [decrypted|] eqn:Hdec.
  - f_equal. by eapply decrypt_authentic.
  - destruct (decide (List.length pad = k)) as [Heq|Hne].
    + rewrite Heq, Nat.sub_diag in Hdec. simpl in Hdec.
      rewrite app_nil_r in Hdec. unfold token in Hdec.
      by rewrite decrypt_encrypt in Hdec.
    + apply IH; lia.
Qed.

(** C3.  With a cipher that behaves as Fernet does, for every byte string
    [x], the empty one included, and all random draws of [obfuscate] (1 to
    16 padding bytes, any of the fake paths and user agents, any cipher
    randomness): [deobfuscate (obfuscate x) = x]. *)
Theorem deobfuscate_obfuscate (r : Draws) (x : bytes) :
  valid_draws r ->
  deobfuscate (obfuscate r x) = x.
Proof.
  intros (Hpad & Hpath & Hagent).
  destruct (fake_headers_split _ _ Hpath Hagent) as [before Hsplit].
  unfold deobfuscate, obfuscate.
  rewrite (app_assoc (str_encode _) (CRLF ++ CRLF)).
  rewrite (split_first_app _ _ _ _ _ Hsplit).
  by rewrite try_paddings_finds by lia.
Qed.

End ObfuscatorProperties.

(** The example cipher obeys the laws. *)

Lemma take_exactly_app (data junk : bytes) :
  take_exactly (List.length data) (data ++ junk) = Some data.
Proof. induction data as [|b data IH]; simpl; [done | by rewrite IH]. Qed.

Lemma unary_token_encrypt (count : nat) (data junk : bytes) :
  unary_token count (repeat x01 (List.length data - count) ++ [x00] ++ data ++ junk)
  = if (count <=? List.length data)%nat then Some data
    else take_exactly count (data ++ junk).
Proof.
  remember (List.length data - count)%nat as todo eqn:Htodo.
  revert count Htodo. induction todo as [|todo IH]; intros count Htodo; simpl.
  - destruct (Nat.leb_spec count (List.length data)); [|done].
    replace count with (List.length data) by lia. apply take_exactly_app.
  - rewrite IH by lia.
    destruct (Nat.leb_spec (S count) (List.length data)); [|lia].
    by destruct (Nat.leb_spec count (List.length data)); [|lia].
Qed.

Lemma unary_cipher_decrypt (data junk : bytes) :
  cipher_decrypt (cipher_encrypt tt data ++ junk) = Some data.
Proof.
  unfold cipher_decrypt, cipher_encrypt. simpl.
  assert (Hskip : forall token : bytes,
            skip_line_breaks (repeat x01 (List.length data) ++ x00 :: token)
            = repeat x01 (List.length data) ++ x00 :: token).
  { intros token. by destruct (List.length data). }
  rewrite <- !app_assoc. simpl. rewrite Hskip.
  pose proof (unary_token_encrypt 0 data junk) as Hu.
  rewrite Nat.sub_0_r in Hu. simpl in Hu. exact Hu.
Qed.

#[global] Instance unary_cipher_laws : CipherLaws.
Proof.
  split.
  - intros [] data.
    rewrite <- (app_nil_r (@cipher_encrypt unary_cipher tt data)).
    apply unary_cipher_decrypt.
  - intros token. reflexivity.
  - intros [] data junk decrypted Hdec.
    rewrite unary_cipher_decrypt in Hdec. by injection Hdec.
Qed.

(** The law on line breaks is used: the split leaves a line break in front
    of the token, and with a reader that does not skip it every padding size
    fails, so that the blob comes back unchanged. *)
Example strict_reader_returns_blob :
  let r := @Build_Draws strict_cipher [x41; x0a; x7a] 1 2 tt in
  @deobfuscate strict_cipher (@obfuscate strict_cipher r (str_encode "hello"))
  = @obfuscate strict_cipher r (str_encode "hello").
Proof. by vm_compute. Qed.

Lemma deobfuscate_obfuscate_witness :
  let r := {| padding := [x41; x0a; x7a]; path_index := 1; agent_index := 2;
              cipher_nonce := tt |} in
  deobfuscate (obfuscate r (str_encode "hello")) = str_encode "hello" /\
  deobfuscate (obfuscate r []) = [].
Proof.
  split; apply deobfuscate_obfuscate; vm_compute; lia.
Defined.

(** ** The port hopper *)

Lemma choose_port_spec (current : option N) (draws : list N) (new_port : N) :
  choose_port current draws = Some new_port ->
  new_port ∈ draws /\ Some new_port <> current.
Proof.
  induction draws as [|d draws IH]; simpl; [done|].
  case_bool_decide as Hd.
  - intros Hrest. destruct (IH Hrest). split; [by right | done].
  - intros [= <-]. split; [by left | done].
Qed.

(** The loop ends as soon as a draw differs from the current port. *)
Lemma choose_port_terminates (current : option N) (draws : list N) :
  (exists d, d ∈ draws /\ Some d <> current) ->
  exists new_port, choose_port current draws = Some new_port.
Proof.
  intros (d & Hin & Hd). induction draws as [|d' draws IH]; simpl.
  - by apply not_elem_of_nil in Hin.
  - case_bool_decide as Hd'; [|by eexists].
    apply IH. apply elem_of_cons in Hin as [-> | Hin]; done.
Qed.

(** With a range of a single port, which is the current one, the loop
    never ends. *)
Lemma choose_port_single (port : N) (draws : list N) :
  Forall (fun d => d = port) draws -> choose_port (Some port) draws = None.
Proof.
  induction 1 as [|d draws -> _ IH]; simpl; [done|].
  by rewrite bool_decide_eq_true_2.
Qed.

(** A hop whose [start_server] fails leaves the hopper as it was. *)
Lemma hop_failed (cfg : BypassConfig) (env : HopEnv) (w : World) (new_port : N) :
  choose_port (current_port (hopper w)) (randint env) = Some new_port ->
  start_server_ok env new_port = false ->
  hop_to_new_port cfg env w = Some w.
Proof. intros Hc Hs. unfold hop_to_new_port. by rewrite Hc, Hs. Qed.

(** The first hop of a fresh hopper opens one listener and closes none. *)
Lemma first_hop (cfg : BypassConfig) (env : HopEnv) (t0 : Z) (new_port : N) :
  choose_port None (randint env) = Some new_port ->
  start_server_ok env new_port = true ->
  exists w',
    hop_to_new_port cfg env (start_world t0 new_port_hopper) = Some w' /\
    clock w' = t0 /\
    current_port (hopper w') = Some new_port /\
    dom (servers (hopper w')) = {[new_port]}.
Proof.
  intros Hc Hs. unfold hop_to_new_port. simpl. rewrite Hc, Hs. simpl.
  eexists. split; [reflexivity|]. simpl. split; [done|]. split; [done|].
  rewrite dom_insert_L, dom_empty_L. apply (right_id_L ∅ (∪)).
Qed.

(** The run of a hop that rotates away from the port [old]. *)
Lemma hop_rotation (cfg : BypassConfig) (env : HopEnv) (t0 : Z)
    (h : PortHopper) (old new_port : N) :
  current_port h = Some old ->
  old <> 0%N ->
  old ∈ dom (servers h) ->
  choose_port (Some old) (randint env) = Some new_port ->
  start_server_ok env new_port = true ->
  let opened := {| current_port := Some new_port;
                   servers := <[new_port :=
                                  {| bind_host := "0.0.0.0";
                                     bind_port := new_port;
                                     forwards_to := (socks_host cfg, socks_port cfg) |}]>
                                (servers h);
                   last_hop := last_hop h |} in
  let closed := {| current_port := Some new_port;
                   servers := delete old (servers opened);
                   last_hop := last_hop h |} in
  hop_to_new_port cfg env (start_world t0 h) =
    Some {| clock := t0 + 60 + oversleep env;
            hopper := closed;
            timeline := [(t0, opened); ((t0 + 60 + oversleep env)%Z, closed)] |}.
Proof.
  intros Hcur Hold Hdom Hchoose Hstart opened closed.
  unfold hop_to_new_port, start_world. simpl.
  rewrite Hcur, Hchoose, Hstart. simpl.
  destruct (N.eqb_spec old 0) as [|_]; [done|]. simpl.
  rewrite bool_decide_eq_true_2; [done|].
  rewrite dom_insert_L. apply elem_of_union. by right.
Qed.

Lemma dom_after_open (old new_port : N) (l : Listener) (m : gmap N Listener) :
  dom m = {[old]} -> dom (<[new_port := l]> m) = {[old; new_port]}.
Proof.
  intros Hdom. rewrite dom_insert_L, Hdom. apply (comm_L (∪)).
Qed.

Lemma dom_after_close (old new_port : N) (l : Listener) (m : gmap N Listener) :
  dom m = {[old]} -> new_port <> old ->
  dom (delete old (<[new_port := l]> m)) = {[new_port]}.
Proof.
  intros Hdom Hne. rewrite dom_delete_L, (dom_after_open old new_port l m Hdom).
  apply set_eq. intros p.
  rewrite elem_of_difference, elem_of_union, !elem_of_singleton.
  split; [by intros [[?|?] ?] | intros ->; split; [by right | done]].
Qed.

(** After a hop the hopper again listens on its current port alone, so the
    next hop starts as this one did. *)
Lemma hop_keeps_single_listener (cfg : BypassConfig) (env : HopEnv) (t0 : Z)
    (h : PortHopper) (old new_port : N) :
  current_port h = Some old ->
  old <> 0%N ->
  dom (servers h) = {[old]} ->
  choose_port (Some old) (randint env) = Some new_port ->
  start_server_ok env new_port = true ->
  exists w',
    hop_to_new_port cfg env (start_world t0 h) = Some w' /\
    current_port (hopper w') = Some new_port /\
    dom (servers (hopper w')) = {[new_port]}.
Proof.
  intros Hcur Hold Hdom Hchoose Hstart.
  destruct (choose_port_spec _ _ _ Hchoose) as [_ Hne].
  eexists. split.
  - apply hop_rotation; try done. rewrite Hdom. by apply elem_of_singleton.
  - simpl. split; [done|]. apply dom_after_close; [done | congruence].
Qed.

(** C7.  A hop of a hopper that listens on its current port [old] alone:
    the new port is a draw from the configured range and differs from
    [old]; a listener on it, forwarding to the engine's local address, is
    open from the start of the hop; the listener of [old] stays open until
    the sleep of 60 seconds has returned (60 seconds or more after the
    start), and is closed then; from then on the new port is the only open
    one, and it is the current port. *)
Theorem hop_overlap (cfg : BypassConfig) (env : HopEnv) (t0 : Z)
    (h : PortHopper) (old new_port : N) :
  current_port h = Some old ->
  old <> 0%N ->
  dom (servers h) = {[old]} ->
  Forall (fun p => (port_range cfg).1 <= p <= (port_range cfg).2)%N (randint env) ->
  choose_port (Some old) (randint env) = Some new_port ->
  start_server_ok env new_port = true ->
  (0 <= oversleep env)%Z ->
  exists w',
    hop_to_new_port cfg env (start_world t0 h) = Some w' /\
    ((port_range cfg).1 <= new_port <= (port_range cfg).2)%N /\
    new_port <> old /\
    (forall t, (t0 <= t)%Z ->
       servers (hopper_at h (timeline w') t) !! new_port =
         Some {| bind_host := "0.0.0.0"; bind_port := new_port;
                 forwards_to := (socks_host cfg, socks_port cfg) |} /\
       current_port (hopper_at h (timeline w') t) = Some new_port) /\
    clock w' = (t0 + 60 + oversleep env)%Z /\
    (forall t, (t0 <= t < clock w')%Z ->
       open_ports h (timeline w') t = {[old; new_port]}) /\
    (forall t, (clock w' <= t)%Z ->
       open_ports h (timeline w') t = {[new_port]}) /\
    hopper w' = hopper_at h (timeline w') (clock w').
Proof.
  intros Hcur Hold Hdom Hrange Hchoose Hstart Hover.
  destruct (choose_port_spec _ _ _ Hchoose) as [Hin Hne].
  assert (Hneq : new_port <> old) by congruence.
  eexists. split.
  { apply hop_rotation; try done. rewrite Hdom. by apply elem_of_singleton. }
  simpl.
  split; [by rewrite Forall_forall in Hrange; apply Hrange|].
  split; [done|].
  assert (Hfirst : forall t, (t0 <= t)%Z -> (t0 <=? t)%Z = true)
    by (intros; by apply Z.leb_le).
  split; [|split; [done|split; [|split]]].
  - intros t Ht. rewrite (Hfirst t Ht).
    destruct (t0 + 60 + oversleep env <=? t)%Z; simpl.
    + by rewrite lookup_delete_ne, lookup_insert_eq.
    + by rewrite lookup_insert_eq.
  - intros t [Ht Hbefore]. unfold open_ports. simpl. rewrite (Hfirst t Ht).
    destruct (Z.leb_spec (t0 + 60 + oversleep env) t); [lia|]. simpl.
    by apply dom_after_open.
  - intros t Ht. unfold open_ports. simpl.
    rewrite (Hfirst t) by lia.
    destruct (Z.leb_spec (t0 + 60 + oversleep env) t); [|lia]. simpl.
    by apply dom_after_close.
  - rewrite (Hfirst (t0 + 60 + oversleep env)%Z) by lia.
    by rewrite Z.leb_refl.
Qed.

Lemma hop_overlap_witness :
  exists w',
    hop_to_new_port default_bypass_config example_hop_env
      (start_world 1000 listening_on_8080) = Some w' /\
    open_ports listening_on_8080 (timeline w') 1000 = {[8080; 8443]}%N /\
    open_ports listening_on_8080 (timeline w') 1059 = {[8080; 8443]}%N /\
    open_ports listening_on_8080 (timeline w') 1062 = {[8443]}%N.
Proof.
  destruct (hop_overlap default_bypass_config example_hop_env 1000
              listening_on_8080 8080 8443)
    as (w' & Hhop & _ & _ & _ & Hclock & Hopen & Hclosed & _).
  - reflexivity.
  - discriminate.
  - apply dom_singleton_L.
  - repeat constructor; simpl; lia.
  - by vm_compute.
  - reflexivity.
  - simpl. lia.
  - exists w'. simpl in Hclock. split; [done|].
    split; [apply Hopen; lia|]. split; [apply Hopen; lia | apply Hclosed; lia].
Defined.

(** ** More on the rate limiter *)

Section RateLimiterRuns.
Implicit Types (q ts : list Z) (st : ServerState).

Local Abbreviation sorted := (StronglySorted Z.le).

Variable self : RateLimiter.
Variable client_ip : string.
Hypothesis not_exempt : limiter_exempt client_ip = false.

Local Abbreviation W := (window_seconds self).
Local Abbreviation limit := (max_requests self).

Lemma prune_dropped (c : Z) q :
  exists dropped,
    q = dropped ++ prune c q /\ Forall (fun t => t <= c)%Z dropped.
Proof.
  induction q as [|t q (d & Hd & Hall)]; simpl; [by exists []|].
  destruct (Z.leb_spec t c); [|by exists []].
  exists (t :: d). split; [simpl; by f_equal | by constructor].
Qed.

Lemma filter_drops_all (c : Z) q :
  Forall (fun t => t <= c)%Z q -> filter (fun t => c < t)%Z q = [].
Proof.
  induction 1 as [|t q Ht _ IH]; [done|].
  rewrite filter_cons_False by lia. done.
Qed.

Lemma last_cons (t d : Z) ts : List.last (t :: ts) d = List.last ts t.
Proof.
  revert t d. induction ts as [|u ts IH]; intros t d; [done|].
  change (List.last (t :: u :: ts) d) with (List.last (u :: ts) d).
  by rewrite !IH.
Qed.

(** One check, seen from the record: what was dropped is at or before the
    cutoff, what is kept stays in order, bounded by [now] and by the
    limit. *)
Lemma is_allowed_step (now : Z) st :
  sorted (record client_ip st) ->
  Forall (fun t => t <= now)%Z (record client_ip st) ->
  (Z.of_nat (List.length (record client_ip st)) <= Z.max 0 limit)%Z ->
  let result := is_allowed self client_ip now st in
  exists dropped kept,
    record client_ip st = dropped ++ kept /\
    Forall (fun t => t <= now - W)%Z dropped /\
    Forall (fun t => now - W < t)%Z kept /\
    record client_ip result.2 = (if result.1 then kept ++ [now] else kept) /\
    sorted (record client_ip result.2) /\
    Forall (fun t => t <= now)%Z (record client_ip result.2) /\
    (Z.of_nat (List.length (record client_ip result.2)) <= Z.max 0 limit)%Z.
Proof.
  intros Hsorted Hpast Hlen result. subst result.
  destruct (prune_dropped (now - W) (record client_ip st))
    as (dropped & Hsplit & Hdropped).
  remember (prune (now - W) (record client_ip st)) as kept eqn:Hk.
  assert (Hkept_sorted : sorted kept).
  { apply (sorted_suffix dropped). by rewrite <- Hsplit. }
  assert (Hkept_past : Forall (fun t => t <= now)%Z kept).
  { rewrite Hsplit in Hpast. by apply Forall_app in Hpast as [_ ?]. }
  assert (Hkept_new : Forall (fun t => now - W < t)%Z kept).
  { rewrite Hk, prune_sorted by done. apply Forall_forall.
    intros t Ht. by apply list_elem_of_filter in Ht as [? _]. }
  assert (Hkept_len : (List.length kept <= List.length (record client_ip st))%nat)
    by (rewrite Hk; apply prune_length).
  exists dropped, kept. split; [done|]. split; [done|]. split; [done|].
  destruct (Z.ltb_spec (Z.of_nat (List.length kept)) limit) as [Hlt|Hge].
  - rewrite is_allowed_admit by (rewrite <- ?Hk; done). simpl.
    rewrite record_insert, <- Hk.
    split; [done|]. split; [by apply sorted_snoc|]. split.
    + apply Forall_app. split; [done|]. constructor; [lia | constructor].
    + rewrite length_app. simpl. lia.
  - rewrite is_allowed_reject by (rewrite <- ?Hk; done). simpl.
    rewrite record_insert, <- Hk.
    split; [done|]. split; [done|]. split; [done|]. lia.
Qed.

(** A run of checks at non-decreasing times: the admitted times are the
    present record, preceded by times that have left the window. *)
Lemma admissions_history ts :
  forall st (last : Z) (admitted dropped : list Z),
    admitted = dropped ++ record client_ip st ->
    Forall (fun t => t <= last - W)%Z dropped ->
    sorted (record client_ip st) ->
    Forall (fun t => t <= last)%Z (record client_ip st) ->
    (Z.of_nat (List.length (record client_ip st)) <= Z.max 0 limit)%Z ->
    sorted (last :: ts) ->
    let result := admissions self client_ip ts st in
    exists dropped',
      admitted ++ admitted_times ts result.1 = dropped' ++ record client_ip result.2 /\
      Forall (fun t => t <= List.last ts last - W)%Z dropped' /\
      sorted (record client_ip result.2) /\
      Forall (fun t => t <= List.last ts last)%Z (record client_ip result.2) /\
      (Z.of_nat (List.length (record client_ip result.2)) <= Z.max 0 limit)%Z.
Proof.
  induction ts as [|t ts IH];
    intros st last admitted dropped Hadm Hdropped Hsorted Hpast Hlen Htimes result.
  - exists dropped. subst result. simpl. by rewrite app_nil_r.
  - subst result.
    apply StronglySorted_inv in Htimes as [Htail Hfirst].
    apply Forall_cons in Hfirst as [Hle _].
    destruct (is_allowed_step t st) as
      (d2 & kept & Hsplit & Hd2 & _ & Hrec & Hs1 & Hp1 & Hl1); [done | | done |].
    { eapply Forall_impl; [exact Hpast|]. simpl. lia. }
    simpl admissions.
    destruct (is_allowed self client_ip t st) as [ok st1]. cbn [fst snd] in *.
    destruct (IH st1 t (admitted ++ (if ok then [t] else [])) (dropped ++ d2))
      as (dropped' & Hadm' & Hdropped' & Hs' & Hp' & Hl'); try done.
    + rewrite Hadm, Hsplit, Hrec. destruct ok; by rewrite ?app_nil_r, <- ?app_assoc.
    + apply Forall_app. split; [|done].
      eapply Forall_impl; [exact Hdropped|]. simpl. lia.
    + destruct (admissions self client_ip ts st1) as [oks st2].
      cbn [fst snd] in *.
      exists dropped'. rewrite last_cons. split; [|done].
      rewrite <- Hadm'. destruct ok; cbn [admitted_times];
        by rewrite <- ?app_assoc, ?app_nil_r.
Qed.

(** X1.  Over any run of checks of one address at non-decreasing times,
    starting from an empty record, the admitted connections that fall in
    the window ending at the latest check never number more than the
    limit.  As every prefix of a run is a run, this holds at every check. *)
Theorem admitted_within_window st (earlier : list Z) (now : Z) :
  record client_ip st = [] ->
  sorted (earlier ++ [now]) ->
  let oks := (admissions self client_ip (earlier ++ [now]) st).1 in
  (Z.of_nat (List.length
     (filter (fun t => now - W < t)%Z (admitted_times (earlier ++ [now]) oks)))
   <= Z.max 0 limit)%Z.
Proof.
  intros Hempty Hsorted oks. subst oks.
  set (first := hd now earlier).
  destruct (admissions_history (earlier ++ [now]) st first [] [])
    as (dropped & Hadm & Hdropped & _ & _ & Hlen).
  - by rewrite Hempty.
  - constructor.
  - rewrite Hempty. constructor.
  - rewrite Hempty. constructor.
  - rewrite Hempty. simpl. lia.
  - constructor; [done|]. unfold first.
    destruct earlier as [|t earlier]; simpl in *.
    + by repeat constructor.
    + constructor; [lia|]. by apply StronglySorted_inv in Hsorted as [_ ?].
  - simpl in Hadm. rewrite Hadm, last_last in *.
    rewrite filter_app, length_app.
    assert (Hnone : filter (fun t => now - W < t)%Z dropped = []).
    { by apply filter_drops_all. }
    rewrite Hnone. simpl.
    pose proof (length_filter (fun t => now - W < t)%Z
      (record client_ip (admissions self client_ip (earlier ++ [now]) st).2)).
    lia.
Qed.

(** X2.  The record of an address is kept in arrival order, inside the
    window that ends at the latest check, and within the limit: with a
    positive window, every check at a time not before the previous one
    re-establishes this, whatever it decides. *)
Theorem record_stays_ok (last now : Z) st :
  (0 < W)%Z ->
  (last <= now)%Z ->
  record_ok self last (record client_ip st) ->
  record_ok self now (record client_ip (is_allowed self client_ip now st).2).
Proof.
  intros Hwindow Hle (Hsorted & Hin & Hlen).
  destruct (is_allowed_step now st) as
    (d2 & kept & _ & _ & Hnew & Hrec & Hs1 & Hp1 & Hl1); [done | | done |].
  { eapply Forall_impl; [exact Hin|]. simpl. lia. }
  split; [done|]. split; [|done].
  apply Forall_forall. intros t Ht.
  rewrite Forall_forall in Hp1. split; [|by apply Hp1].
  rewrite Hrec in Ht. rewrite Forall_forall in Hnew.
  destruct ((is_allowed self client_ip now st).1).
  - apply elem_of_app in Ht as [Ht | Ht]; [by apply Hnew|].
    apply list_elem_of_singleton in Ht as ->. lia.
  - by apply Hnew.
Qed.

(** The counters over a run: one hit for every rejected check. *)
Lemma admissions_hits ts st :
  let result := admissions self client_ip ts st in
  RATE_LIMIT_HITS result.2 =
    (RATE_LIMIT_HITS st + List.length (filter (fun ok => ok = false) result.1))%nat /\
  CONNECTION_COUNTER result.2 = CONNECTION_COUNTER st.
Proof.
  revert st. induction ts as [|t ts IH]; intros st; simpl; [split; [lia|done]|].
  destruct (Z.ltb_spec
    (Z.of_nat (List.length (prune (t - W) (record client_ip st)))) limit).
  - rewrite is_allowed_admit by done.
    specialize (IH {| requests := <[client_ip := prune (t - W) (record client_ip st) ++ [t]]>
                                    (requests st);
                      RATE_LIMIT_HITS := RATE_LIMIT_HITS st;
                      CONNECTION_COUNTER := CONNECTION_COUNTER st |}).
    destruct (admissions self client_ip ts _) as [oks st2]. cbn [fst snd] in *.
    rewrite filter_cons_False by done. done.
  - rewrite is_allowed_reject by done.
    specialize (IH {| requests := <[client_ip := prune (t - W) (record client_ip st)]>
                                    (requests st);
                      RATE_LIMIT_HITS := S (RATE_LIMIT_HITS st);
                      CONNECTION_COUNTER := CONNECTION_COUNTER st |}).
    destruct (admissions self client_ip ts _) as [oks st2]. cbn [fst snd] in *.
    rewrite filter_cons_True by done. simpl in *. destruct IH. split; [lia|done].
Qed.

End RateLimiterRuns.

Lemma admitted_within_window_witness :
  (Z.of_nat (List.length
     (filter (fun t => 25 - 60 < t)%Z
        (admitted_times ([0; 10; 20] ++ [25])%Z
           (admissions burst_limiter "203.0.113.5" ([0; 10; 20] ++ [25])%Z
              initial_state).1))) <= Z.max 0 2)%Z.
Proof.
  apply (admitted_within_window burst_limiter "203.0.113.5" eq_refl
           initial_state [0; 10; 20]%Z 25%Z); [reflexivity|].
  repeat constructor; lia.
Defined.

Lemma record_stays_ok_witness :
  record_ok burst_limiter 70
    (record "203.0.113.5"
       (is_allowed burst_limiter "203.0.113.5" 70
          (admissions burst_limiter "203.0.113.5" [0; 10; 20]%Z initial_state).2).2).
Proof.
  apply (record_stays_ok burst_limiter "203.0.113.5" eq_refl 20 70);
    [simpl; lia | lia |].
  assert (Hrecord :
    record "203.0.113.5"
      (admissions burst_limiter "203.0.113.5" [0; 10; 20]%Z initial_state).2
    = [0; 10]%Z) by (by vm_compute).
  rewrite Hrecord. split; [|split].
  - repeat constructor; lia.
  - repeat constructor; simpl; lia.
  - simpl. lia.
Defined.

(** X3.  The limiter works per address: a check of one address leaves the
    record of every other address, and the decisions on it, as they
    were. *)
Theorem checks_are_per_address (self : RateLimiter) (client_ip other : string)
    (now t : Z) (st : ServerState) :
  client_ip <> other ->
  record other (is_allowed self client_ip now st).2 = record other st /\
  (is_allowed self other t (is_allowed self client_ip now st).2).1 =
    (is_allowed self other t st).1.
Proof.
  intros Hne.
  assert (Hrecord : record other (is_allowed self client_ip now st).2
                    = record other st).
  { unfold is_allowed, record. destruct (limiter_exempt client_ip); [done|].
    destruct (_ <=? _)%Z; simpl; by rewrite lookup_insert_ne. }
  split; [done|].
  unfold record in Hrecord. unfold is_allowed at 1 3.
  destruct (limiter_exempt other); [done|]. rewrite Hrecord.
  by destruct (_ <=? _)%Z.
Qed.

Lemma checks_are_per_address_witness :
  (is_allowed burst_limiter "198.51.100.7" 21
     (admissions burst_limiter "203.0.113.5" [0; 10; 20]%Z initial_state).2).1
  = true.
Proof.
  assert (Hne : "203.0.113.5" <> "198.51.100.7") by discriminate.
  pose proof (checks_are_per_address burst_limiter "203.0.113.5" "198.51.100.7"
    20 21 (admissions burst_limiter "203.0.113.5" [0; 10]%Z initial_state).2 Hne)
    as [_ Hsame].
  exact Hsame.
Defined.

(** ** More on the SOCKS5 engine *)

Section EngineSessions.
Context `{Platform}.
Implicit Types (env : Env) (s : session) (data : bytes).

Lemma read_empty (n : nat) (tr : list event) :
  read n {| pending := []; trace := tr |} = ([], {| pending := []; trace := tr |}).
Proof. reflexivity. Qed.

Lemma u8_take (n i : nat) data : (i < n)%nat -> u8 (take n data) i = u8 data i.
Proof.
  intros Hi. unfold u8. rewrite nth_firstn.
  by destruct (Nat.ltb_spec i n); [|lia].
Qed.

Lemma auth_request_length (username password : bytes) :
  List.length (auth_request username password)
  = (3 + List.length username + List.length password)%nat.
Proof. unfold auth_request. rewrite !length_app. simpl. lia. Qed.

Lemma auth_request_fields (username password : bytes) :
  (List.length username <= 255)%nat ->
  (List.length password <= 255)%nat ->
  let data := auth_request username password in
  u8 data 0 = 1%nat /\
  u8 data 1 = List.length username /\
  slice data 2 (2 + List.length username) = username /\
  u8 data (2 + List.length username) = List.length password /\
  slice data (2 + List.length username + 1)
        (2 + List.length username + 1 + List.length password) = password.
Proof.
  intros Hu Hp data. subst data.
  set (ub := default x00 (Byte.of_N (N.of_nat (List.length username)))).
  set (pb := default x00 (Byte.of_N (N.of_nat (List.length password)))).
  assert (Hub : Byte.to_nat ub = List.length username).
  { unfold ub. rewrite byte_value by lia. lia. }
  assert (Hpb : Byte.to_nat pb = List.length password).
  { unfold pb. rewrite byte_value by lia. lia. }
  change (auth_request username password)
    with ([x01; ub] ++ username ++ [pb] ++ password).
  split; [done|]. split; [done|]. split.
  { apply (slice_middle [x01; ub] username ([pb] ++ password)). }
  split.
  - unfold u8. rewrite app_nth2 by (simpl; lia).
    rewrite app_nth2 by (simpl; lia).
    replace (2 + List.length username - List.length [x01; ub]
             - List.length username)%nat with 0%nat by (simpl; lia).
    done.
  - pose proof (slice_middle ([x01; ub] ++ username ++ [pb]) password []) as Hs.
    rewrite app_nil_r, <- !app_assoc in Hs.
    rewrite !length_app in Hs. simpl in Hs.
    replace (2 + List.length username + 1)%nat
      with (S (S (List.length username + 1))) by lia.
    exact Hs.
Qed.

(** X4.  The authentication message is read back as the client wrote it:
    for a user name and a password of at most 255 bytes each, the handler
    decides by [authenticate] on the two decoded texts, answers [01 00] on
    success and [01 01] on failure, and consumes the message. *)
Theorem authentication_message_parsed env (username password : bytes)
    (rest : list bytes) (tr : list event) :
  (List.length username <= 255)%nat ->
  (List.length password <= 255)%nat ->
  let ok := authenticate (config env) (auth_tokens env)
              (decode_utf8_ignore username) (decode_utf8_ignore password) in
  _handle_authentication env
    {| pending := auth_request username password :: rest; trace := tr |} =
    (ok, {| pending := rest;
            trace := tr ++ [EvWrite [x01; if ok then x00 else x01]] |}).
Proof.
  intros Hu Hp ok. subst ok.
  pose proof (auth_request_length username password) as Hlen.
  destruct (auth_request_fields username password Hu Hp)
    as (Hv & Hul & Huser & Hpl & Hpass).
  unfold _handle_authentication. rewrite read_whole by lia.
  rewrite Hv, Hul, Huser, Hpl, Hpass, Hlen.
  destruct (Nat.ltb_spec (3 + List.length username + List.length password) 3);
    [lia|].
  change (negb (1 =? 1)%nat) with false. cbv iota.
  destruct (Nat.ltb_spec (3 + List.length username + List.length password)
              (2 + List.length username + 1)); [lia|].
  destruct (Nat.ltb_spec (3 + List.length username + List.length password)
              (2 + List.length username + 1 + List.length password)); [lia|].
  by destruct (authenticate _ _ _ _).
Qed.

(** X5.  A message that is cut short, or that does not carry version 1 of
    the sub-negotiation, ends the authentication without a reply: every
    proper prefix of a well-formed message, and every message with another
    first byte, yields a failure and no write. *)
Theorem authentication_malformed env (username password : bytes) (k : nat)
    data (rest : list bytes) (tr : list event) :
  (List.length username <= 255)%nat ->
  (List.length password <= 255)%nat ->
  (k < List.length (auth_request username password))%nat ->
  u8 data 0 <> 1%nat ->
  _handle_authentication env
    {| pending := take k (auth_request username password) :: rest;
       trace := tr |} = (false, {| pending := rest; trace := tr |}) /\
  (_handle_authentication env {| pending := data :: rest; trace := tr |}).1
    = false /\
  trace (_handle_authentication env {| pending := data :: rest; trace := tr |}).2
    = tr.
Proof.
  intros Hu Hp Hk Hversion.
  pose proof (auth_request_length username password) as Hlen.
  destruct (auth_request_fields username password Hu Hp)
    as (Hv & Hul & _ & Hpl & _).
  split.
  - set (full := auth_request username password) in *.
    unfold _handle_authentication.
    rewrite read_whole by (rewrite length_take; lia).
    rewrite length_take.
    replace (k `min` List.length full)%nat with k by lia.
    destruct (Nat.ltb_spec k 3); [done|].
    rewrite !u8_take by lia. rewrite Hv, Hul.
    change (negb (1 =? 1)%nat) with false. cbv iota.
    destruct (Nat.ltb_spec k (2 + List.length username + 1)); [done|].
    rewrite u8_take by lia. rewrite Hpl.
    by destruct (Nat.ltb_spec k
      (2 + List.length username + 1 + List.length password)); [|lia].
  - unfold _handle_authentication, read. simpl pending. cbv beta iota zeta.
    destruct (List.length (take 513 data) <? 3)%nat; [done|].
    rewrite u8_take by lia.
    by destruct (Nat.eqb_spec (u8 data 0) 1).
Qed.

(** The stages of a session, read off the handlers. *)

Lemma connect_target_stage env (addr : string) (port : nat) s :
  exists events,
    trace (connect_target env addr port s) = trace s ++ events /\
    request_stage events.
Proof.
  unfold connect_target, request_stage.
  destruct (_is_telegram_address (config env) addr); simpl.
  - destruct (open_connection env addr port); simpl.
    + exists [EvDial addr port; EvWrite (reply 0); EvRelay].
      split; [by rewrite <- !app_assoc|].
      do 4 right. exists addr, port. by right.
    + exists [EvDial addr port; EvWrite (reply 1)].
      split; [by rewrite <- !app_assoc|].
      do 4 right. exists addr, port. by left.
  - exists [EvWrite (reply 2)]. split; [done|]. right. by left.
Qed.

Lemma request_stage_spec env s :
  exists events,
    trace (_handle_socks5_request env s) = trace s ++ events /\
    request_stage events.
Proof.
  assert (Hnone : forall s', trace s' = trace s ->
            exists events, trace s' = trace s ++ events /\ request_stage events).
  { intros s' ->. exists []. split; [by rewrite app_nil_r | by left]. }
  assert (Hconnect : forall s' addr port, trace s' = trace s ->
            exists events,
              trace (connect_target env addr port s') = trace s ++ events /\
              request_stage events).
  { intros s' addr port Hs'. rewrite <- Hs'. apply connect_target_stage. }
  unfold _handle_socks5_request.
  pose proof (read_trace 262 s) as Hread.
  destruct (read 262 s) as [data s1]. simpl in Hread.
  destruct (List.length data <? 10)%nat; [by apply Hnone|].
  destruct (negb _ || negb _).
  { exists [EvWrite (reply 7)]. simpl. rewrite Hread.
    split; [done|]. do 2 right. by left. }
  destruct (u8 data 3 =? 1)%nat; [by apply Hconnect|].
  destruct (u8 data 3 =? 3)%nat.
  { destruct (_ <? _)%nat; [by apply Hnone|].
    destruct (_ <? _)%nat; [by apply Hnone|]. by apply Hconnect. }
  destruct (u8 data 3 =? 4)%nat.
  { destruct (_ <? _)%nat; [by apply Hnone|]. by apply Hconnect. }
  exists [EvWrite (reply 8)]. simpl. rewrite Hread.
  split; [done|]. do 3 right. by left.
Qed.

Lemma authentication_stage_spec env s :
  let result := _handle_authentication env s in
  (result.1 = true /\
   trace result.2 = trace s ++ [EvWrite [x01; x00]] /\
   exists username password,
     authenticate (config env) (auth_tokens env) username password = true)
  \/
  (result.1 = false /\
   (trace result.2 = trace s \/
    trace result.2 = trace s ++ [EvWrite [x01; x01]])).
Proof.
  unfold _handle_authentication.
  pose proof (read_trace 513 s) as Hread.
  destruct (read 513 s) as [data s1]. simpl in Hread.
  destruct (List.length data <? 3)%nat; [right; auto|].
  destruct (negb _); [right; auto|].
  destruct (List.length data <? _)%nat; [right; auto|].
  destruct (List.length data <? _)%nat; [right; auto|].
  destruct (authenticate _ _ _ _) eqn:Hauth; simpl; rewrite Hread.
  - left. split; [done|]. split; [done|]. eauto.
  - right. auto.
Qed.

Lemma handshake_stage_spec env (input : list bytes) :
  let s := _handle_socks5_handshake env {| pending := input; trace := [] |} in
  session_shape (trace s) /\
  (auth_required (config env) = true ->
   (exists addr port, EvDial addr port ∈ trace s) ->
   exists username password,
     authenticate (config env) (auth_tokens env) username password = true).
Proof.
  unfold _handle_socks5_handshake.
  pose proof (read_trace 262 {| pending := input; trace := [] |}) as Hread.
  destruct (read 262 _) as [data s1]. simpl in Hread.
  assert (Hquiet : session_shape (trace s1) /\
            (auth_required (config env) = true ->
             (exists addr port, EvDial addr port ∈ trace s1) ->
             exists username password,
               authenticate (config env) (auth_tokens env) username password
               = true)).
  { rewrite Hread. split; [by left|].
    intros _ (a & p & Hin). by apply not_elem_of_nil in Hin. }
  destruct (List.length data <? 3)%nat; [done|].
  destruct (negb _); [done|].
  destruct (auth_required (config env)) eqn:Hauth; cbn [andb].
  - destruct (negb _).
    { simpl. rewrite Hread. split; [right; by left|].
      intros _ (a & p & Hin). simpl in Hin.
      apply list_elem_of_singleton in Hin. discriminate. }
    set (s2 := emit _ s1).
    assert (Hs2 : trace s2 = [EvWrite [x05; x02]]) by (simpl; by rewrite Hread).
    destruct (authentication_stage_spec env s2)
      as [(Hok & Htrace & Hcreds) | (Hok & Htrace)].
    + destruct (_handle_authentication env s2) as [ok s3]. simpl in *.
      subst ok. simpl.
      destruct (request_stage_spec env s3) as (events & Htr & Hstage).
      rewrite Htr, Htrace, Hs2. simpl. split; [|done].
      do 2 right. left. eexists. split; [reflexivity|].
      do 2 right. by exists events.
    + destruct (_handle_authentication env s2) as [ok s3]. simpl in *.
      subst ok. simpl. split.
      * do 2 right. left. destruct Htrace as [-> | ->]; rewrite Hs2; simpl.
        -- eexists. split; [reflexivity|]. by left.
        -- eexists. split; [reflexivity|]. right. by left.
      * intros _ (a & p & Hin).
        destruct Htrace as [Ht | Ht]; rewrite Ht, Hs2 in Hin; simpl in Hin;
          repeat (apply elem_of_cons in Hin as [Hin | Hin]; [discriminate|]);
          by apply not_elem_of_nil in Hin.
  - set (s2 := emit _ s1).
    assert (Hs2 : trace s2 = [EvWrite [x05; x00]]) by (simpl; by rewrite Hread).
    simpl. destruct (request_stage_spec env s2) as (events & Htr & Hstage).
    rewrite Htr, Hs2. simpl. split; [|done].
    do 3 right. by exists events.
Qed.



End EngineSessions.

Section EngineRequests.
Context `{Platform}.
Implicit Types (env : Env) (s : session) (data : bytes).


(** X9.  Only CONNECT and the three address types are served: a request
    of at least ten bytes with a command byte other than 1 gets the reply
    with code 7, and a CONNECT request with an address type other than 1,
    3 and 4 gets the reply with code 8; in both cases nothing else is
    written and nothing is dialed, whatever the target. *)
Theorem unsupported_request env data (rest : list bytes) (tr : list event) :
  (10 <= List.length data)%nat ->
  (u8 data 1 <> 1%nat ->
   trace (_handle_socks5_request env {| pending := data :: rest; trace := tr |})
     = tr ++ [EvWrite (reply 7)])
  /\
  (u8 data 0 = 5%nat -> u8 data 1 = 1%nat ->
   u8 data 3 <> 1%nat -> u8 data 3 <> 3%nat -> u8 data 3 <> 4%nat ->
   trace (_handle_socks5_request env {| pending := data :: rest; trace := tr |})
     = tr ++ [EvWrite (reply 8)]).
Proof.
  intros Hlen.
  assert (Hten : (List.length (take 262 data) <? 10)%nat = false).
  { rewrite length_take. apply Nat.ltb_ge. lia. }
  split.
  - intros Hcmd. unfold _handle_socks5_request, read. simpl pending.
    cbv beta iota zeta. rewrite Hten. rewrite !u8_take by lia.
    destruct (Nat.eqb_spec (u8 data 1) 1); [done|].
    by rewrite orb_true_r.
  - intros Hversion Hcmd H1 H3 H4.
    unfold _handle_socks5_request, read. simpl pending.
    cbv beta iota zeta. rewrite Hten. rewrite !u8_take by lia.
    rewrite Hversion, Hcmd.
    change (negb (5 =? SOCKS_VERSION)%nat || negb (1 =? 1)%nat) with false.
    cbv iota.
    destruct (Nat.eqb_spec (u8 data 3) 1); [done|].
    destruct (Nat.eqb_spec (u8 data 3) 3); [done|].
    by destruct (Nat.eqb_spec (u8 data 3) 4).
Qed.

(** X10.  A CONNECT request that arrives cut short is dropped without a
    reply and without a dial: the engine does nothing on any proper prefix
    of a well-formed request. *)
Theorem truncated_request_dropped env (t : target) (port : N) (k : nat)
    (rest : list bytes) (tr : list event) :
  well_formed_target t ->
  (k < List.length (connect_request t port))%nat ->
  _handle_socks5_request env
    {| pending := take k (connect_request t port) :: rest; trace := tr |} =
    {| pending := rest; trace := tr |}.
Proof.
  intros Hwf Hk.
  pose proof (connect_request_length t port) as Hsize.
  set (full := connect_request t port) in *.
  assert (Hlen : List.length (take k full) = k) by (rewrite length_take; lia).
  assert (Hmax : (List.length full <= 262)%nat).
  { rewrite Hsize. destruct t; simpl in Hwf; lia. }
  destruct (Nat.lt_ge_cases k 10) as [Hshort | Hlong].
  { unfold _handle_socks5_request. rewrite read_whole by lia. rewrite Hlen.
    by destruct (Nat.ltb_spec k 10); [|lia]. }
  rewrite request_dispatch;
    [| lia | by rewrite u8_take by lia | by rewrite u8_take by lia].
  rewrite Hlen, !u8_take by lia.
  destruct t as [address|name|address]; simpl in Hwf; cbv iota in Hsize.
  - lia.
  - change (u8 full 3) with 3%nat. cbv iota.
    assert (Hn : u8 full 4 = List.length name).
    { change (u8 full 4)
        with (Byte.to_nat (default x00 (Byte.of_N (N.of_nat (List.length name))))).
      rewrite byte_value by lia. lia. }
    rewrite Hn.
    by destruct (Nat.ltb_spec k (5 + List.length name + 2)); [|lia].
  - change (u8 full 3) with 4%nat. cbv iota.
    by destruct (Nat.ltb_spec k 22); [|lia].
Qed.


(** X12.  Every accepted connection is counted exactly once, as a
    connection or as a rate-limit hit, and is closed: after any sequence of
    connections the two counters have grown by the number of connections,
    and every session ends with the close and dials only addresses that
    the domain filter accepts. *)
Theorem connections_are_counted env
    (connections : list (string * Z * list bytes)) (st : ServerState) :
  let result := serve env connections st in
  List.length result.1 = List.length connections /\
  (CONNECTION_COUNTER result.2 + RATE_LIMIT_HITS result.2
   = CONNECTION_COUNTER st + RATE_LIMIT_HITS st + List.length connections)%nat /\
  Forall (fun events =>
            exists before,
              events = before ++ [EvClose] /\ Forall (allowed_dial env) before)
         result.1.
Proof.
  revert st. induction connections as [|[[client_ip now] input] more IH];
    intros st; simpl.
  - split; [done|]. split; [lia | constructor].
  - pose proof (handle_client_trace env client_ip now input st) as Htrace.
    assert (Hcount :
      (CONNECTION_COUNTER (handle_client env client_ip now input st).2
       + RATE_LIMIT_HITS (handle_client env client_ip now input st).2
       = CONNECTION_COUNTER st + RATE_LIMIT_HITS st + 1)%nat).
    { unfold handle_client, admission, is_allowed.
      repeat case_match; simplify_eq; simpl; lia. }
    destruct (handle_client env client_ip now input st) as [events st1].
    specialize (IH st1). destruct (serve env more st1) as [traces st2].
    simpl in *. destruct IH as (Hlen & Hsum & Hall).
    split; [by rewrite Hlen|]. split; [lia|]. by constructor.
Qed.

End EngineRequests.

(** *** Concrete messages *)

Lemma authentication_message_parsed_witness :
  _handle_authentication (example_env default_config true)
    {| pending := [auth_request (str_encode "admin") (str_encode "password")];
       trace := [] |} =
    (true, {| pending := []; trace := [EvWrite [x01; x00]] |}).
Proof.
  rewrite (authentication_message_parsed (example_env default_config true)
             (str_encode "admin") (str_encode "password") [] [])
    by (vm_compute; lia).
  by vm_compute.
Defined.

Lemma authentication_malformed_witness :
  _handle_authentication (example_env default_config true)
    {| pending := [take 7 (auth_request (str_encode "admin") (str_encode "password"))];
       trace := [] |} =
    (false, {| pending := []; trace := [] |}).
Proof.
  refine (proj1 (authentication_malformed (example_env default_config true)
    (str_encode "admin") (str_encode "password") 7 [x05; x01; x02] [] []
    _ _ _ _)); vm_compute; lia.
Defined.



Lemma unsupported_request_witness :
  trace (_handle_socks5_request (example_env default_config true)
    {| pending := [socks_request 5 2 (TargetDomain (str_encode "api.telegram.org")) 443];
       trace := [] |}) = [EvWrite (reply 7)].
Proof.
  refine (proj1 (unsupported_request (example_env default_config true)
    (socks_request 5 2 (TargetDomain (str_encode "api.telegram.org")) 443)
    [] [] _) _); vm_compute; lia.
Defined.

Lemma truncated_request_dropped_witness :
  _handle_socks5_request (example_env default_config true)
    {| pending :=
         [take 12 (connect_request (TargetDomain (str_encode "api.telegram.org")) 443)];
       trace := [] |} =
    {| pending := []; trace := [] |}.
Proof.
  apply (truncated_request_dropped (example_env default_config true)
           (TargetDomain (str_encode "api.telegram.org")) 443 12 [] []);
    vm_compute; lia.
Defined.


(** The blob of the tunnel clients, with valid credentials and an allowed
    target, draws the method selection and nothing more. *)
Example tunnel_blob_gets_method_selection :
  tunnel_exchange (example_env default_config true) "127.0.0.1" 0
    (_build_socks5_request (str_encode "admin") (str_encode "password")
       (str_encode "api.telegram.org") 443)
    initial_state
  = ([x05; x02],
     {| requests := ∅; RATE_LIMIT_HITS := 0; CONNECTION_COUNTER := 1 |}).
Proof. by vm_compute. Qed.

(** ** The relay loops *)

Lemma chunk_size_positive : (0 < chunk_size)%nat.
Proof. unfold chunk_size. lia. Qed.

Lemma copy_data_step (fuel : nat) (chunk : bytes) (rest : list bytes)
    (tr : list event) :
  chunk <> [] ->
  copy_data (S fuel) {| pending := chunk :: rest; trace := tr |} =
    copy_data fuel
      {| pending := if (List.length chunk <=? chunk_size)%nat then rest
                    else drop chunk_size chunk :: rest;
         trace := tr ++ [EvWrite (take chunk_size chunk)] |}.
Proof.
  intros Hne. cbn [copy_data]. unfold read. cbn [pending trace].
  rewrite bool_decide_eq_false_2; [done|].
  pose proof chunk_size_positive as Hpos.
  destruct chunk as [|b chunk]; [done|].
  destruct chunk_size; [lia | done].
Qed.

(** X13.  A relay loop forwards the stream unchanged: run on a reader that
    returns the given non-empty chunks and then the end of the stream, it
    ends after at most one read per byte and one more, the concatenation of
    its writes is the concatenation of the chunks, every write has between
    1 and 8192 bytes, chunks of at most 8192 bytes are written as they
    came, and the last thing it does is to close the writer. *)
Theorem relay_forwards_stream (chunks : list bytes) (tr : list event)
    (fuel : nat) :
  Forall (fun chunk => chunk <> []) chunks ->
  (List.length (concat chunks) < fuel)%nat ->
  exists writes,
    copy_data fuel {| pending := chunks; trace := tr |} =
      Some {| pending := [];
              trace := tr ++ map EvWrite writes ++ [EvClose] |} /\
    concat writes = concat chunks /\
    Forall (fun data => (1 <= List.length data <= chunk_size)%nat) writes /\
    (Forall (fun chunk => (List.length chunk <= chunk_size)%nat) chunks ->
     writes = chunks).
Proof.
  pose proof chunk_size_positive as Hpos.
  revert chunks tr. induction fuel as [|fuel IH]; intros chunks tr Hne Hfuel.
  { lia. }
  destruct chunks as [|chunk rest].
  { exists []. cbn [copy_data]. unfold read. cbn [pending trace].
    rewrite bool_decide_eq_true_2 by done. by repeat split. }
  apply Forall_cons in Hne as [Hchunk Hrest].
  assert (Hlen : (1 <= List.length chunk)%nat).
  { destruct chunk; [done | simpl; lia]. }
  rewrite copy_data_step by done.
  cbn [concat] in Hfuel. rewrite length_app in Hfuel.
  destruct (Nat.leb_spec (List.length chunk) chunk_size) as [Hfits | Hlong].
  - destruct (IH rest (tr ++ [EvWrite (take chunk_size chunk)]) Hrest)
      as (writes & Hrun & Hcat & Hsizes & Hsame); [lia|].
    rewrite take_ge in Hrun |- * by done.
    exists (chunk :: writes). split; [|split; [|split]].
    + rewrite Hrun. by rewrite <- app_assoc.
    + cbn [concat]. by rewrite Hcat.
    + apply Forall_cons. split; [lia | done].
    + intros Hall. apply Forall_cons in Hall as [_ Hall]. by rewrite Hsame.
  - destruct (IH (drop chunk_size chunk :: rest)
                (tr ++ [EvWrite (take chunk_size chunk)]))
      as (writes & Hrun & Hcat & Hsizes & _).
    + apply Forall_cons. split; [|done].
      intros Hempty. apply (f_equal (@List.length byte)) in Hempty.
      rewrite length_drop in Hempty. simpl in Hempty. lia.
    + cbn [concat]. rewrite length_app, length_drop. lia.
    + exists (take chunk_size chunk :: writes). split; [|split; [|split]].
      * rewrite Hrun. by rewrite <- app_assoc.
      * cbn [concat] in Hcat |- *. rewrite Hcat, app_assoc.
        by rewrite take_drop.
      * apply Forall_cons. split; [|done]. rewrite length_take. lia.
      * intros Hall. apply Forall_cons in Hall as [Hfits _]. lia.
Qed.

Lemma relay_forwards_stream_witness :
  exists writes,
    copy_data 4 {| pending := [[x01; x02]; [x03]]; trace := [] |} =
      Some {| pending := [];
              trace := [] ++ map EvWrite writes ++ [EvClose] |} /\
    concat writes = concat [[x01; x02]; [x03]] /\
    Forall (fun data => (1 <= List.length data <= chunk_size)%nat) writes /\
    (Forall (fun chunk => (List.length chunk <= chunk_size)%nat)
            [[x01; x02]; [x03]] ->
     writes = [[x01; x02]; [x03]]).
Proof.
  apply (relay_forwards_stream [[x01; x02]; [x03]] [] 4).
  - repeat constructor; done.
  - simpl. lia.
Defined.

(** ** The loop of the port hopper *)

Lemma size_dom_insert (p : N) (l : Listener) (m : gmap N Listener) :
  (size (dom (<[p := l]> m)) <= 1 + size (dom m))%nat.
Proof.
  rewrite dom_insert_L, size_union_alt, size_singleton.
  pose proof (subseteq_size (dom m ∖ {[p]}) (dom m)) as Hsub.
  assert (dom m ∖ {[p]} ⊆ dom m) as Hdiff.
  { intros x Hx. by apply elem_of_difference in Hx as [? _]. }
  specialize (Hsub Hdiff). lia.
Qed.

Lemma hopper_single_safe (h : PortHopper) : hopper_single h -> hopper_safe h.
Proof.
  unfold hopper_single, hopper_safe.
  destruct (current_port h) as [p|].
  - intros [_ Hdom]. rewrite Hdom, size_singleton. split; [lia|].
    intros q [= <-]. by apply elem_of_singleton.
  - intros Hdom. rewrite Hdom, size_empty. split; [lia | done].
Qed.

Lemma usable_draws_choose (env : HopEnv) (current : option N) :
  usable_draws env ->
  exists new_port,
    choose_port current (randint env) = Some new_port /\
    new_port <> 0%N /\ Some new_port <> current.
Proof.
  intros [Hnz (a & b & Ha & Hb & Hab)].
  destruct (choose_port_terminates current (randint env)) as [new_port Hc].
  - destruct (decide (Some a = current)) as [Heq | Hne].
    + exists b. split; [done|]. intros Hb'. apply Hab. congruence.
    + by exists a.
  - exists new_port. split; [done|].
    destruct (choose_port_spec _ _ _ Hc) as [Hin Hne].
    split; [|done]. rewrite Forall_forall in Hnz. by apply Hnz.
Qed.

(** A hop of a hopper that listens on its current port alone, with usable
    draws: it returns, it leaves the hopper listening on its current port
    alone, and every state it goes through has at most two listeners. *)
Lemma hop_invariant (cfg : BypassConfig) (env : HopEnv) (w : World) :
  hopper_single (hopper w) ->
  usable_draws env ->
  exists w' added,
    hop_to_new_port cfg env w = Some w' /\
    timeline w' = timeline w ++ added /\
    hopper_single (hopper w') /\
    Forall (fun c => hopper_safe c.2) added.
Proof.
  intros Hsingle Husable.
  destruct (usable_draws_choose env (current_port (hopper w)) Husable)
    as (new_port & Hchoose & Hnz & Hne).
  unfold hop_to_new_port. rewrite Hchoose.
  destruct (start_server_ok env new_port); cbn [negb].
  2: { exists w, []. by rewrite app_nil_r. }
  unfold hopper_single in Hsingle.
  destruct (current_port (hopper w)) as [old|] eqn:Hcur.
  - destruct Hsingle as [Hold Hdom].
    assert (Hneq : new_port <> old) by congruence.
    cbn [truthy commit hopper servers].
    destruct (N.eqb_spec old 0) as [|_]; [done|]. cbn [negb andb].
    rewrite bool_decide_eq_true_2
      by (rewrite dom_insert_L, Hdom; apply elem_of_union; right;
          by apply elem_of_singleton).
    eexists _, [_; _]. split; [reflexivity|].
    cbn [commit sleep timeline hopper clock current_port servers].
    split; [by rewrite <- app_assoc|].
    split; [|constructor; [|constructor; [|constructor]]].
    + unfold hopper_single. cbn [current_port servers].
      split; [done | by apply dom_after_close].
    + unfold hopper_safe. cbn [snd current_port servers]. split.
      * rewrite (dom_after_open old new_port _ _ Hdom).
        rewrite size_union_alt, !size_singleton.
        pose proof (subseteq_size ({[new_port]} ∖ {[old]} : gset N) {[new_port]})
          as Hsub.
        rewrite size_singleton in Hsub.
        assert (({[new_port]} ∖ {[old]} : gset N) ⊆ {[new_port]}) as Hdiff.
        { intros x Hx. by apply elem_of_difference in Hx as [? _]. }
        specialize (Hsub Hdiff). lia.
      * intros p [= <-]. rewrite dom_insert_L. apply elem_of_union. left.
        by apply elem_of_singleton.
    + apply hopper_single_safe. unfold hopper_single.
      cbn [snd current_port servers].
      split; [done | by apply dom_after_close].
  - eexists _, [_]. split; [reflexivity|].
    cbn [commit timeline hopper current_port servers].
    assert (Hnew : hopper_single
              {| current_port := Some new_port;
                 servers := <[new_port :=
                   {| bind_host := "0.0.0.0"; bind_port := new_port;
                      forwards_to := handle_hopped_connection cfg |}]>
                   (servers (hopper w));
                 last_hop := last_hop (hopper w) |}).
    { unfold hopper_single. cbn [current_port servers]. split; [done|].
      rewrite dom_insert_L, Hsingle. apply (right_id_L ∅ (∪)). }
    split; [done|]. split; [done|].
    apply Forall_cons. split; [|done]. by apply hopper_single_safe.
Qed.

Lemma pass_invariant (cfg : BypassConfig) (env : HopEnv) (w : World) :
  hopper_single (hopper w) ->
  usable_draws env ->
  exists w' added,
    start_hopping_pass cfg env w = Some w' /\
    timeline w' = timeline w ++ added /\
    hopper_single (hopper w') /\
    Forall (fun c => hopper_safe c.2) added.
Proof.
  intros Hsingle Husable. unfold start_hopping_pass.
  destruct (hop_interval cfg <=? clock w - last_hop (hopper w))%Z.
  - destruct (hop_invariant cfg env w Hsingle Husable)
      as (w1 & added & Hhop & Htime & Hsingle1 & Hsafe).
    rewrite Hhop.
    eexists _, (added ++ [_]). split; [reflexivity|].
    cbn [sleep commit timeline hopper].
    split; [by rewrite Htime, <- app_assoc|].
    assert (Hkept : hopper_single
              {| current_port := current_port (hopper w1);
                 servers := servers (hopper w1);
                 last_hop := clock w |}) by done.
    split; [done|].
    apply Forall_app. split; [done|].
    apply Forall_cons. split; [|done]. by apply hopper_single_safe.
  - exists (sleep env 30 w), []. by rewrite app_nil_r.
Qed.

Lemma hopper_at_cases (P : PortHopper -> Prop) (before : PortHopper)
    (commits : list (Z * PortHopper)) (t : Z) :
  P before -> Forall (fun c => P c.2) commits -> P (hopper_at before commits t).
Proof.
  revert before. induction commits as [|[at_time h] later IH];
    intros before Hbefore Hall; cbn [hopper_at]; [done|].
  apply Forall_cons in Hall as [Hh Hlater].
  destruct (at_time <=? t)%Z; [by apply IH | done].
Qed.

(** X14.  The loop of the port hopper keeps its listeners in order: started
    on a hopper that does not listen yet, or listens on its current port
    alone, with draws that are never port 0 and not all the same port,
    every number of passes completes; afterwards the hopper again listens
    on its current port alone, and at every instant in between at most two
    ports are open and the current port is one of them, whether
    [start_server] succeeds or fails.  So whenever [get_port_info] answers
    with status 200, the current port it reports is among at most two
    active ports. *)
Theorem hopping_keeps_listeners (cfg : BypassConfig) (passes : list HopEnv)
    (w : World) :
  hopper_single (hopper w) ->
  Forall usable_draws passes ->
  exists w' added,
    start_hopping cfg passes w = Some w' /\
    timeline w' = timeline w ++ added /\
    hopper_single (hopper w') /\
    forall t,
      let h := hopper_at (hopper w) added t in
      (size (open_ports (hopper w) added t) <= 2)%nat /\
      (forall p, current_port h = Some p ->
                 p ∈ open_ports (hopper w) added t) /\
      (forall p ports,
         get_port_info (Some h) = (200%nat, Some p, ports) ->
         p ∈ ports /\ (List.length ports <= 2)%nat).
Proof.
  intros Hsingle Husable.
  assert (Hrun : exists w' added,
            start_hopping cfg passes w = Some w' /\
            timeline w' = timeline w ++ added /\
            hopper_single (hopper w') /\
            Forall (fun c => hopper_safe c.2) added).
  { revert w Hsingle.
    induction Husable as [|env more Henv _ IH]; intros w Hsingle.
    - exists w, []. by rewrite app_nil_r.
    - destruct (pass_invariant cfg env w Hsingle Henv)
        as (w1 & added1 & Hpass & Htime1 & Hsingle1 & Hsafe1).
      destruct (IH w1 Hsingle1) as (w2 & added2 & Hrest & Htime2 & Hsingle2 & Hsafe2).
      exists w2, (added1 ++ added2). cbn [start_hopping]. rewrite Hpass.
      split; [done|]. split; [by rewrite Htime2, Htime1, <- app_assoc|].
      split; [done | by apply Forall_app]. }
  destruct Hrun as (w' & added & Hrun & Htime & Hsingle' & Hsafe).
  exists w', added. split; [done|]. split; [done|]. split; [done|].
  intros t h.
  assert (Hh : hopper_safe h).
  { apply hopper_at_cases; [by apply hopper_single_safe | done]. }
  destruct Hh as [Hsize Hcurrent]. unfold open_ports. fold h.
  split; [done|]. split; [done|].
  intros p ports. unfold get_port_info.
  destruct (truthy (current_port h)); [|done].
  intros [= Hp <-]. split.
  - apply elem_of_elements. by apply Hcurrent.
  - exact Hsize.
Qed.

Lemma hopping_keeps_listeners_witness :
  exists w' added,
    start_hopping default_bypass_config [example_hop_env; example_hop_env]
      (start_world 1000 listening_on_8080) = Some w' /\
    timeline w' = timeline (start_world 1000 listening_on_8080) ++ added /\
    hopper_single (hopper w') /\
    forall t,
      let h := hopper_at (hopper (start_world 1000 listening_on_8080)) added t in
      (size (open_ports (hopper (start_world 1000 listening_on_8080)) added t)
       <= 2)%nat /\
      (forall p, current_port h = Some p ->
                 p ∈ open_ports (hopper (start_world 1000 listening_on_8080))
                       added t) /\
      (forall p ports,
         get_port_info (Some h) = (200%nat, Some p, ports) ->
         p ∈ ports /\ (List.length ports <= 2)%nat).
Proof.
  assert (Hdraws : usable_draws example_hop_env).
  { split; [repeat constructor; done|].
    exists 8080%N, 8443%N. split; [by left|]. split; [|done].
    right. right. by left. }
  apply (hopping_keeps_listeners default_bypass_config
           [example_hop_env; example_hop_env]
           (start_world 1000 listening_on_8080)).
  - split; [done | apply dom_singleton_L].
  - repeat (apply List.Forall_cons; [exact Hdraws|]). apply List.Forall_nil.
Defined.

(** *** The hops in time *)

Lemma last_app_default (l1 l2 : list Z) (d : Z) :
  List.last (l1 ++ l2) d = List.last l2 (List.last l1 d).
Proof.
  revert d. induction l1 as [|t l1 IH]; intros d; [done|].
  change ((t :: l1) ++ l2) with (t :: (l1 ++ l2)).
  by rewrite !last_cons, IH.
Qed.

Lemma spaced_app (interval prev : Z) (l1 l2 : list Z) :
  spaced interval prev l1 ->
  spaced interval (List.last l1 prev) l2 ->
  spaced interval prev (l1 ++ l2).
Proof.
  revert prev. induction l1 as [|t l1 IH]; intros prev H1 H2; [done|].
  destruct H1 as [Ht H1]. rewrite last_cons in H2.
  split; [done | by apply IH].
Qed.

Lemma spaced_constant (interval prev : Z) (commits : list (Z * PortHopper)) :
  Forall (fun c => last_hop c.2 = prev) commits ->
  spaced interval prev (map (fun c => last_hop c.2) commits) /\
  List.last (map (fun c => last_hop c.2) commits) prev = prev.
Proof.
  induction 1 as [|c commits Hc _ [IH1 IH2]]; [done|].
  cbn [map]. rewrite last_cons, Hc. split; [|done].
  split; [by left | done].
Qed.

(** A hop leaves [last_hop] alone. *)
Lemma hop_keeps_last_hop (cfg : BypassConfig) (env : HopEnv) (w : World)
    (new_port : N) :
  choose_port (current_port (hopper w)) (randint env) = Some new_port ->
  exists w' added,
    hop_to_new_port cfg env w = Some w' /\
    timeline w' = timeline w ++ added /\
    last_hop (hopper w') = last_hop (hopper w) /\
    Forall (fun c => last_hop c.2 = last_hop (hopper w)) added /\
    ((0 <= oversleep env)%Z -> (clock w <= clock w')%Z).
Proof.
  intros Hchoose. unfold hop_to_new_port. rewrite Hchoose.
  destruct (start_server_ok env new_port); cbn [negb].
  2: { exists w, []. rewrite app_nil_r. repeat split; [done | lia]. }
  destruct (current_port (hopper w)) as [old|].
  - destruct (truthy (Some old) && _).
    + eexists _, [_; _]. split; [reflexivity|].
      cbn [commit sleep timeline hopper clock last_hop].
      split; [by rewrite <- app_assoc|]. split; [done|].
      split; [by repeat constructor | lia].
    + eexists _, [_]. split; [reflexivity|].
      cbn [commit timeline hopper clock last_hop].
      split; [done|]. split; [done|]. split; [by repeat constructor | lia].
  - eexists _, [_]. split; [reflexivity|].
    cbn [commit timeline hopper clock last_hop].
    split; [done|]. split; [done|]. split; [by repeat constructor | lia].
Qed.

Lemma pass_spacing (cfg : BypassConfig) (env : HopEnv) (w : World) :
  usable_draws env ->
  exists w' added,
    start_hopping_pass cfg env w = Some w' /\
    timeline w' = timeline w ++ added /\
    spaced (hop_interval cfg) (last_hop (hopper w))
      (map (fun c => last_hop c.2) added) /\
    last_hop (hopper w') =
      List.last (map (fun c => last_hop c.2) added) (last_hop (hopper w)) /\
    ((0 <= oversleep env)%Z -> (clock w + 30 <= clock w')%Z).
Proof.
  intros Husable. unfold start_hopping_pass.
  destruct (Z.leb_spec (hop_interval cfg) (clock w - last_hop (hopper w)))
    as [Hdue | Hearly].
  - destruct (usable_draws_choose env (current_port (hopper w)) Husable)
      as (new_port & Hchoose & _).
    destruct (hop_keeps_last_hop cfg env w new_port Hchoose)
      as (w1 & added & Hhop & Htime & Hlast & Hkept & Hclock).
    rewrite Hhop.
    destruct (spaced_constant (hop_interval cfg) _ _ Hkept) as [Hspaced Hend].
    eexists _, (added ++ [_]). split; [reflexivity|].
    cbn [sleep commit timeline hopper clock last_hop].
    split; [by rewrite Htime, <- app_assoc|].
    rewrite map_app. cbn [map snd last_hop].
    split; [|split].
    + apply spaced_app; [done|]. rewrite Hend. split; [right; lia | done].
    + by rewrite last_app_default.
    + intros Hover. specialize (Hclock Hover). lia.
  - exists (sleep env 30 w), []. rewrite app_nil_r.
    cbn [sleep clock hopper map]. repeat split; try done. lia.
Qed.



(** A pass of the example: the hop is due at 1000, takes 62 seconds, and
    [last_hop] becomes 1000; the next pass, at 1094, does not hop. *)
Example two_passes :
  exists w',
    start_hopping default_bypass_config [example_hop_env; example_hop_env]
      (start_world 1000 listening_on_8080) = Some w' /\
    clock w' = 1126%Z /\
    last_hop (hopper w') = 1000%Z /\
    current_port (hopper w') = Some 8443%N /\
    map fst (timeline w') = [1000; 1062; 1062]%Z.
Proof. eexists. split; [by vm_compute|]. by vm_compute. Qed.

(** ** More on the domain filter *)

(** X16.  The domain filter is monotone in the allow set: an address that
    is accepted stays accepted when entries are added, and with an empty
    allow set every address is rejected. *)
Theorem filter_monotone `{Platform} (config wider : ProxyConfig)
    (addr : string) :
  (telegram_domains config ⊆ telegram_domains wider ->
   _is_telegram_address config addr = true ->
   _is_telegram_address wider addr = true) /\
  (telegram_domains config = ∅ -> _is_telegram_address config addr = false).
Proof.
  split.
  - intros Hsub. rewrite !is_telegram_address_true.
    intros [Hexact | [(domain & Hin & Hrest) | (ip & cidr & network & Hip & Hin & Hrest)]].
    + left. by apply Hsub.
    + right. left. exists domain. split; [by apply Hsub | done].
    + right. right. exists ip, cidr, network.
      split; [done|]. split; [by apply Hsub | done].
  - intros Hempty.
    destruct (_is_telegram_address config addr) eqn:Haccept; [|done].
    apply is_telegram_address_true in Haccept.
    rewrite Hempty in Haccept.
    destruct Haccept
      as [Hin | [(domain & Hin & _) | (ip & cidr & network & _ & Hin & _)]];
      by apply not_elem_of_empty in Hin.
Qed.

Lemma filter_monotone_witness :
  _is_telegram_address extended_config "web.telegram.org" = true.
Proof.
  apply (proj1 (filter_monotone default_config extended_config "web.telegram.org")).
  - apply union_subseteq_l.
  - by vm_compute.
Defined.

(** ** The credential table *)

Section AuthManagerProperties.
Context `{Platform}.
Variable json_loads : string -> option (gmap string string).

(** The table that is built when [PROXY_AUTH_TOKENS] yields no entry: the
    variable is unset or empty, or its text is not JSON, or it holds an
    empty object. *)
Lemma load_auth_tokens_default (getenv : string -> option string) :
  (text_truthy (getenv "PROXY_AUTH_TOKENS") = true ->
   json_loads (default "" (getenv "PROXY_AUTH_TOKENS")) = None \/
   json_loads (default "" (getenv "PROXY_AUTH_TOKENS")) = Some ∅) ->
  _load_auth_tokens json_loads getenv =
    {[ "admin" :=
         sha256_hexdigest
           (if text_truthy (getenv "ADMIN_PASSWORD")
            then default "" (getenv "ADMIN_PASSWORD")
            else default "default_admin_token_change_me" (getenv "ADMIN_TOKEN")) ]}.
Proof.
  intros Hnone. unfold _load_auth_tokens.
  assert (Hempty :
    (if text_truthy (getenv "PROXY_AUTH_TOKENS")
     then match json_loads (default "" (getenv "PROXY_AUTH_TOKENS")) with
          | Some loaded => loaded
          | None => ∅
          end
     else ∅) = (∅ : gmap string string)).
  { destruct (text_truthy (getenv "PROXY_AUTH_TOKENS")); [|done].
    by destruct Hnone as [-> | ->]. }
  rewrite Hempty, bool_decide_eq_true_2 by done.
  by destruct (text_truthy (getenv "ADMIN_PASSWORD")).
Qed.

(** X17.  Without a credential table in [PROXY_AUTH_TOKENS] there is
    exactly one user, "admin": its password is [ADMIN_PASSWORD] when that
    is set and not empty, else [ADMIN_TOKEN] when that is set, else the
    built-in "default_admin_token_change_me"; no other user name is
    accepted.  With a table that has an entry, the table is taken as it is
    and neither variable is read. *)
Theorem default_admin_credentials (config : ProxyConfig)
    (getenv : string -> option string) :
  auth_required config = true ->
  let tokens := _load_auth_tokens json_loads getenv in
  ((text_truthy (getenv "PROXY_AUTH_TOKENS") = true ->
    json_loads (default "" (getenv "PROXY_AUTH_TOKENS")) = None \/
    json_loads (default "" (getenv "PROXY_AUTH_TOKENS")) = Some ∅) ->
   (forall admin_password,
      getenv "ADMIN_PASSWORD" = Some admin_password -> admin_password <> "" ->
      authenticate config tokens "admin" admin_password = true) /\
   (forall admin_token,
      text_truthy (getenv "ADMIN_PASSWORD") = false ->
      getenv "ADMIN_TOKEN" = Some admin_token ->
      authenticate config tokens "admin" admin_token = true) /\
   (text_truthy (getenv "ADMIN_PASSWORD") = false ->
    getenv "ADMIN_TOKEN" = None ->
    authenticate config tokens "admin" "default_admin_token_change_me" = true) /\
   (forall username password,
      authenticate config tokens username password = true ->
      username = "admin")) /\
  (forall loaded,
     text_truthy (getenv "PROXY_AUTH_TOKENS") = true ->
     json_loads (default "" (getenv "PROXY_AUTH_TOKENS")) = Some loaded ->
     loaded <> ∅ ->
     tokens = loaded).
Proof.
  intros Hauth tokens. subst tokens. split.
  - intros Hnone. rewrite (load_auth_tokens_default getenv Hnone).
    unfold authenticate. rewrite Hauth. cbn [negb].
    split; [|split; [|split]].
    + intros admin_password Hset Hne. rewrite Hset. cbn [text_truthy default].
      destruct (String.eqb_spec admin_password ""); [done|]. cbn [negb].
      apply bool_decide_eq_true_2. by rewrite lookup_singleton_eq.
    + intros admin_token Hno Hset. rewrite Hno, Hset. cbn [default].
      apply bool_decide_eq_true_2. by rewrite lookup_singleton_eq.
    + intros Hno Hunset. rewrite Hno, Hunset. cbn [default].
      apply bool_decide_eq_true_2. by rewrite lookup_singleton_eq.
    + intros username password Hok. apply bool_decide_eq_true_1 in Hok.
      apply lookup_singleton_Some in Hok as [<- _]. done.
  - intros loaded Hset Hloaded Hne. unfold _load_auth_tokens.
    rewrite Hset, Hloaded. by rewrite bool_decide_eq_false_2.
Qed.

End AuthManagerProperties.

Lemma default_admin_credentials_witness :
  authenticate default_config (_load_auth_tokens no_json empty_environment)
    "admin" "default_admin_token_change_me" = true.
Proof.
  destruct (default_admin_credentials no_json default_config empty_environment)
    as [Hdefault _]; [reflexivity|].
  destruct Hdefault as (_ & _ & Hbuiltin & _); [discriminate|].
  by apply Hbuiltin.
Defined.

(** ** The health check *)

Section HealthCheck.
Context `{Platform}.

(** The session of the probe [05 01 00]. *)
Lemma probe_session (env : Env) :
  trace (_handle_socks5_handshake env
           {| pending := [pack_B 5 ++ pack_B 1 ++ pack_B 0]; trace := [] |}) =
    [EvWrite [x05; if auth_required (config env) then xff else x00]].
Proof.
  change (pack_B 5 ++ pack_B 1 ++ pack_B 0) with (greeting [x00]).
  rewrite greeting_read by (done || (simpl; lia)).
  destruct (auth_required (config env)); [done|].
  cbn [andb]. cbv zeta. cbn [negb].
  unfold _handle_socks5_request, emit, read. by cbn [pending trace].
Qed.

(** X18.  The health check passes only against a proxy that does not
    require authentication: its probe offers method 0 alone, so with
    authentication required, as in the default configuration, every
    attempt is answered [05 FF] or closed at once and the check fails,
    whatever the number of attempts.  Without authentication the first
    attempt from an address that is exempt from the rate limiter
    succeeds, and counts as one connection. *)
Theorem health_check_needs_open_proxy (env : Env) (client_ip : string)
    (attempts : list Z) (st : ServerState) :
  (auth_required (config env) = true ->
   (check_socks5_health env client_ip attempts st).1 = false) /\
  (auth_required (config env) = false ->
   client_ip ∈ exempt_ips ->
   attempts <> [] ->
   check_socks5_health env client_ip attempts st =
     (true, {| requests := requests st;
               RATE_LIMIT_HITS := RATE_LIMIT_HITS st;
               CONNECTION_COUNTER := S (CONNECTION_COUNTER st) |})).
Proof.
  split.
  - intros Hauth. revert st.
    induction attempts as [|now later IH]; intros st; [done|].
    cbn [check_socks5_health]. unfold handle_client.
    destruct (admission env client_ip now st) as [[|] st1]; cbn [negb].
    + rewrite probe_session, Hauth. cbn [app first_write firstn].
      change (negb (List.length [x05; xff] =? 2)%nat) with false. cbv iota.
      change ((u8 [x05; xff] 0 =? 5)%nat &&
              ((u8 [x05; xff] 1 =? 0)%nat || (u8 [x05; xff] 1 =? 2)%nat))
        with false.
      cbv iota. apply IH.
    + cbn [first_write firstn List.length Nat.eqb negb]. apply IH.
  - intros Hauth Hexempt Hne.
    destruct attempts as [|now later]; [done|].
    cbn [check_socks5_health]. unfold handle_client, admission.
    rewrite bool_decide_eq_true_2 by done. cbn [negb].
    by rewrite probe_session, Hauth.
Qed.

End HealthCheck.

Lemma health_check_needs_open_proxy_witness :
  (check_socks5_health (example_env default_config true) "127.0.0.1"
     [0; 1; 2]%Z initial_state).1 = false /\
  (check_socks5_health (example_env open_config true) "127.0.0.1"
     [0; 1; 2]%Z initial_state).1 = true.
Proof.
  split.
  - by apply (proj1 (health_check_needs_open_proxy
                       (example_env default_config true) "127.0.0.1"
                       [0; 1; 2]%Z initial_state)).
  - rewrite (proj2 (health_check_needs_open_proxy
                      (example_env open_config true) "127.0.0.1"
                      [0; 1; 2]%Z initial_state)); [done | done | | done].
    by constructor.
Defined.

(** ** Sessions on more input *)

Section EngineCausality.
Context `{Platform}.
Implicit Types (env : Env) (s later : session) (data : bytes).

Lemma extends_refl s : extends s s.
Proof. split; [done|]. exists []. by rewrite app_nil_r. Qed.

Lemma emit_extends (e : event) s later :
  extends s later -> extends (emit e s) (emit e later).
Proof.
  intros [Htrace Hpending]. split; [|done].
  unfold emit. cbn [trace]. by rewrite Htrace.
Qed.

(** A read either finds the stream of the shorter session at its end, or
    returns the same bytes in both. *)
Lemma read_extends (n : nat) s later :
  extends s later ->
  (pending s = [] /\ read n s = ([], s)) \/
  ((read n later).1 = (read n s).1 /\ extends (read n s).2 (read n later).2).
Proof.
  destruct s as [p tr], later as [p' tr'].
  intros [Htrace [more Hpending]]. cbn [trace pending] in *. subst.
  destruct p as [|chunk rest]; [by left|]. right.
  unfold read. cbn [pending trace app fst snd].
  split; [done|]. split; [done|]. cbn [pending].
  destruct (List.length chunk <=? n)%nat; by exists more.
Qed.

Lemma connect_target_extends env (addr : string) (port : nat) s later :
  extends s later ->
  extends (connect_target env addr port s) (connect_target env addr port later).
Proof.
  intros Hext. unfold connect_target.
  repeat case_match; by repeat apply emit_extends.
Qed.

Lemma request_extends env s later :
  extends s later ->
  (pending s = [] /\ _handle_socks5_request env s = s) \/
  extends (_handle_socks5_request env s) (_handle_socks5_request env later).
Proof.
  intros Hext.
  destruct (read_extends 262 s later Hext) as [[Hempty Hread] | [Hdata Hext']].
  - left. split; [done|]. unfold _handle_socks5_request. by rewrite Hread.
  - right. unfold _handle_socks5_request.
    destruct (read 262 s) as [data s1], (read 262 later) as [data' later1].
    cbn [fst snd] in *. subst data'.
    repeat case_match;
      first [ done
            | by apply connect_target_extends
            | by apply emit_extends ].
Qed.

Lemma authentication_extends env s later :
  extends s later ->
  (pending s = [] /\ _handle_authentication env s = (false, s)) \/
  ((_handle_authentication env later).1 = (_handle_authentication env s).1 /\
   extends (_handle_authentication env s).2 (_handle_authentication env later).2).
Proof.
  intros Hext.
  destruct (read_extends 513 s later Hext) as [[Hempty Hread] | [Hdata Hext']].
  - left. split; [done|]. unfold _handle_authentication. by rewrite Hread.
  - right. unfold _handle_authentication.
    destruct (read 513 s) as [data s1], (read 513 later) as [data' later1].
    cbn [fst snd] in *. subst data'.
    repeat case_match; cbn [fst snd];
      first [ done | by split; [done | apply emit_extends] ].
Qed.

Lemma extends_prefix s later : extends s later -> trace s `prefix_of` trace later.
Proof. intros [-> _]. done. Qed.

Lemma continues_prefix env s s' : continues env s s' -> trace s `prefix_of` trace s'.
Proof. intros (events & -> & _). by exists events. Qed.

Lemma request_causal env s later :
  extends s later ->
  trace (_handle_socks5_request env s)
    `prefix_of` trace (_handle_socks5_request env later).
Proof.
  intros Hext. destruct (request_extends env s later Hext) as [[_ ->] | Hrun].
  - destruct Hext as [<- _]. apply (continues_prefix env), request_continues.
  - by apply extends_prefix.
Qed.

Lemma handshake_causal env s later :
  extends s later ->
  trace (_handle_socks5_handshake env s)
    `prefix_of` trace (_handle_socks5_handshake env later).
Proof.
  intros Hext.
  destruct (read_extends 262 s later Hext) as [[Hempty Hread] | [Hdata Hext']].
  { assert (Hsame : _handle_socks5_handshake env s = s).
    { unfold _handle_socks5_handshake. by rewrite Hread. }
    rewrite Hsame. destruct Hext as [<- _].
    apply (continues_prefix env), handshake_continues. }
  unfold _handle_socks5_handshake.
  destruct (read 262 s) as [data s1], (read 262 later) as [data' later1].
  cbn [fst snd] in *. subst data'.
  destruct (List.length data <? 3)%nat; [by apply extends_prefix|].
  destruct (negb (u8 data 0 =? SOCKS_VERSION)%nat); [by apply extends_prefix|].
  destruct (auth_required (config env)); cbn [andb].
  - destruct (negb _); [by apply extends_prefix, emit_extends|].
    set (e := EvWrite _).
    assert (Hemit : extends (emit e s1) (emit e later1)) by by apply emit_extends.
    destruct (authentication_extends env _ _ Hemit)
      as [[_ Hstop] | [Hsame Hext2]].
    + rewrite Hstop. cbn [negb].
      destruct Hemit as [<- _].
      pose proof (authentication_continues env (emit e later1)) as Hauth.
      destruct (_handle_authentication env (emit e later1)) as [[|] later2];
        cbn [negb snd] in *.
      * apply (continues_prefix env).
        eapply continues_trans; [exact Hauth | apply request_continues].
      * by apply (continues_prefix env).
    + destruct (_handle_authentication env (emit e s1)) as [ok s2],
               (_handle_authentication env (emit e later1)) as [ok' later2].
      cbn [fst snd] in *. subst ok'.
      destruct ok; cbn [negb]; [by apply request_causal | by apply extends_prefix].
  - apply request_causal. by apply emit_extends.
Qed.

(** X19.  The engine is causal: what a session has done on the chunks it
    has read does not depend on what arrives later.  The events of a session
    on some input, up to the close, are the first events of its session on
    that input followed by more chunks; and the admission and the counters
    do not depend on the input at all. *)
Theorem session_causal env (client_ip : string) (now : Z)
    (input more : list bytes) (st : ServerState) :
  exists events further,
    (handle_client env client_ip now input st).1 = events ++ [EvClose] /\
    (handle_client env client_ip now (input ++ more) st).1
      = events ++ further ++ [EvClose] /\
    (handle_client env client_ip now (input ++ more) st).2
      = (handle_client env client_ip now input st).2.
Proof.
  unfold handle_client.
  destruct (admission env client_ip now st) as [[|] st1]; cbn [negb fst snd].
  - destruct (handshake_causal env {| pending := input; trace := [] |}
                {| pending := input ++ more; trace := [] |}) as [further Hmore].
    { split; [done | by exists more]. }
    eexists _, further. split; [reflexivity|].
    split; [|done]. by rewrite Hmore, <- app_assoc.
  - by exists [], [].
Qed.

End EngineCausality.

(** ** The client against the engine *)

Section ClientProperties.
Context `{Platform}.
Implicit Types (env : Env) (s : session) (data : bytes).

(** The authentication message of at most 255 bytes for each text, as the
    handler reads it. *)
Lemma authentication_read env (username password : bytes)
    (rest : list bytes) (tr : list event) :
  (List.length username <= 255)%nat ->
  (List.length password <= 255)%nat ->
  let ok := authenticate (config env) (auth_tokens env)
              (decode_utf8_ignore username) (decode_utf8_ignore password) in
  _handle_authentication env
    {| pending := auth_request username password :: rest; trace := tr |} =
    (ok, {| pending := rest;
            trace := tr ++ [EvWrite [x01; if ok then x00 else x01]] |}).
Proof.
  intros Hu Hp ok. subst ok.
  pose proof (auth_request_length username password) as Hlen.
  destruct (auth_request_fields username password Hu Hp)
    as (Hv & Hul & Huser & Hpl & Hpass).
  unfold _handle_authentication. rewrite read_whole by lia.
  rewrite Hv, Hul, Huser, Hpl, Hpass, Hlen.
  destruct (Nat.ltb_spec (3 + List.length username + List.length password) 3);
    [lia|].
  change (negb (1 =? 1)%nat) with false. cbv iota.
  destruct (Nat.ltb_spec (3 + List.length username + List.length password)
              (2 + List.length username + 1)); [lia|].
  destruct (Nat.ltb_spec (3 + List.length username + List.length password)
              (2 + List.length username + 1 + List.length password)); [lia|].
  by destruct (authenticate _ _ _ _).
Qed.

Lemma short_request_dropped env data (rest : list bytes) (tr : list event) :
  (List.length data < 10)%nat ->
  _handle_socks5_request env {| pending := data :: rest; trace := tr |} =
    {| pending := rest; trace := tr |}.
Proof.
  intros Hlen. unfold _handle_socks5_request. rewrite read_whole by lia.
  by destruct (Nat.ltb_spec (List.length data) 10); [|lia].
Qed.

Lemma request_at_end env (tr : list event) :
  _handle_socks5_request env {| pending := []; trace := tr |} =
    {| pending := []; trace := tr |}.
Proof. reflexivity. Qed.

Lemma authentication_at_end env (tr : list event) :
  _handle_authentication env {| pending := []; trace := tr |} =
    (false, {| pending := []; trace := tr |}).
Proof. reflexivity. Qed.

(** The server's session on the messages of the client, stage by stage. *)
Lemma session_of_client env (rest : list bytes) :
  _handle_socks5_handshake env
    {| pending := (pack_B 5 ++ pack_B 1 ++ pack_B 2) :: rest; trace := [] |} =
  if auth_required (config env) then
    let '(authenticated, s) :=
      _handle_authentication env
        {| pending := rest; trace := [EvWrite [x05; x02]] |} in
    if negb authenticated then s else _handle_socks5_request env s
  else
    _handle_socks5_request env {| pending := rest; trace := [EvWrite [x05; x00]] |}.
Proof.
  change (pack_B 5 ++ pack_B 1 ++ pack_B 2) with (greeting [x02]).
  rewrite greeting_read by (done || (simpl; lia)).
  destruct (auth_required (config env)); [|done].
  rewrite bool_decide_eq_true_2 by (by constructor). done.
Qed.

Lemma server_rejects env (client_ip : string) (now : Z) (st : ServerState) :
  (admission env client_ip now st).1 = false ->
  forall sent, server_of env client_ip now st sent = [EvClose].
Proof.
  intros Hrejected sent. unfold server_of, handle_client.
  destruct (admission env client_ip now st) as [admitted st1].
  cbn [fst] in Hrejected. by subst admitted.
Qed.

Lemma server_admits env (client_ip : string) (now : Z) (st : ServerState) :
  (admission env client_ip now st).1 = true ->
  forall sent,
    server_of env client_ip now st sent =
      trace (_handle_socks5_handshake env {| pending := sent; trace := [] |})
      ++ [EvClose].
Proof.
  intros Hadmitted sent. unfold server_of, handle_client.
  destruct (admission env client_ip now st) as [admitted st1].
  cbn [fst] in Hadmitted. by subst admitted.
Qed.


End ClientProperties.

(** The client of the example server: the right password connects, a wrong
    one raises "Authentication failed", a host outside the allow list is
    refused with code 2, and a server without authentication is not
    understood. *)
Example client_sessions :
  let server := server_of (example_env default_config true) "203.0.113.7" 0
                  initial_state in
  _socks5_connect server (str_encode "admin") (str_encode "password")
    (str_encode "api.telegram.org") 443 = Connected /\
  _socks5_connect server (str_encode "admin") (str_encode "guess")
    (str_encode "api.telegram.org") 443 = Raised AuthenticationFailed /\
  _socks5_connect server (str_encode "admin") (str_encode "password")
    (str_encode "example.org") 443 = Raised (ConnectFailed 2) /\
  _socks5_connect
    (server_of (example_env open_config true) "203.0.113.7" 0 initial_state)
    (str_encode "admin") (str_encode "password")
    (str_encode "api.telegram.org") 443 = Raised HandshakeFailed.
Proof. by vm_compute. Qed.

(** ** The HTTP tunnel *)

Section TunnelProperties.
Context `{CipherLaws} `{Platform}.

Lemma obfuscation_round_trip (r : Draws) (x : bytes) :
  valid_draws r -> deobfuscate (obfuscate r x) = x.
Proof.
  intros (Hpad & Hpath & Hagent).
  destruct (fake_headers_split _ _ Hpath Hagent) as [before Hsplit].
  unfold deobfuscate, obfuscate.
  rewrite (app_assoc (str_encode _) (CRLF ++ CRLF)).
  rewrite (split_first_app _ _ _ _ _ Hsplit).
  by rewrite try_paddings_finds by lia.
Qed.

(** What the engine answers to one chunk of at most 262 bytes. *)
Lemma single_chunk_answer (env : Env) (client_ip : string) (now : Z)
    (data : bytes) (st : ServerState) :
  (List.length data <= 262)%nat ->
  (tunnel_exchange env client_ip now data st).1
    ∈ [[]; [x05; xff]; [x05; x02]; [x05; x00]].
Proof.
  intros Hlen.
  assert (Hevents :
    (handle_client env client_ip now [data] st).1
      ∈ [[EvClose]; [EvWrite [x05; xff]; EvClose];
         [EvWrite [x05; x02]; EvClose]; [EvWrite [x05; x00]; EvClose]]).
  { unfold handle_client.
    destruct (admission env client_ip now st) as [[|] st1]; cbn [negb fst];
      [|by constructor].
    unfold _handle_socks5_handshake. rewrite read_whole by done.
    destruct (List.length data <? 3)%nat; [by constructor|].
    destruct (negb _); [by constructor|].
    destruct (auth_required (config env)); cbn [andb].
    - destruct (negb _); [by do 2 constructor|].
      unfold emit. cbn [pending trace app].
      rewrite authentication_at_end. by do 3 constructor.
    - unfold emit. cbn [pending trace app].
      rewrite request_at_end. by do 4 constructor. }
  unfold tunnel_exchange.
  destruct (handle_client env client_ip now [data] st) as [events st1].
  cbn [fst] in *.
  repeat (apply elem_of_cons in Hevents as [-> | Hevents];
          [by repeat constructor|]).
  by apply elem_of_nil in Hevents.
Qed.


End TunnelProperties.


(** ** The rate limit on dials *)

Section DialRate.
Context `{Platform}.
Variable env : Env.
Variable client_ip : string.
Hypothesis not_exempt : client_ip ∉ exempt_ips.
Hypothesis not_internal : is_docker_internal client_ip = false.

Local Abbreviation sorted := (StronglySorted Z.le).
Local Abbreviation self := (new_rate_limiter (config env)).
Local Abbreviation W := (rate_limit_window (config env)).
Local Abbreviation limit := (rate_limit_per_ip (config env)).

Lemma limiter_applies : limiter_exempt client_ip = false.
Proof. by apply bool_decide_eq_false_2. Qed.

(** A connection from the address meets the limiter, and its session
    dials only when it was admitted. *)
Lemma handle_client_limited (now : Z) (input : list bytes) (st : ServerState) :
  record client_ip (handle_client env client_ip now input st).2
    = record client_ip (is_allowed self client_ip now st).2 /\
  (dialed (handle_client env client_ip now input st).1 = true ->
   (is_allowed self client_ip now st).1 = true).
Proof.
  unfold handle_client, admission.
  rewrite bool_decide_eq_false_2 by done. rewrite not_internal. cbn [negb].
  by destruct (is_allowed self client_ip now st) as [[|] st1].
Qed.

(** A connection from another address leaves the record alone. *)
Lemma handle_client_other (other : string) (now : Z) (input : list bytes)
    (st : ServerState) :
  other <> client_ip ->
  record client_ip (handle_client env other now input st).2
    = record client_ip st.
Proof.
  intros Hne.
  assert (Hcheck : record client_ip (is_allowed self other now st).2
                   = record client_ip st).
  { unfold is_allowed, record. destruct (limiter_exempt other); [done|].
    destruct (_ <=? _)%Z; cbn [snd requests]; by rewrite lookup_insert_ne. }
  unfold handle_client, admission.
  destruct (negb (bool_decide (other ∈ exempt_ips))); cbn [negb];
    [destruct (negb (is_docker_internal other))|]; try done.
  destruct (is_allowed self other now st) as [[|] st1]; by cbn [negb snd] in *.
Qed.

Lemma filter_sublist (c : Z) (l1 l2 : list Z) :
  l1 `sublist_of` l2 ->
  filter (fun t => c < t)%Z l1 `sublist_of` filter (fun t => c < t)%Z l2.
Proof.
  induction 1 as [|t l1 l2 _ IH | t l1 l2 _ IH]; [done | |].
  - destruct (decide (c < t)%Z).
    + rewrite !filter_cons_True by done. by apply sublist_skip.
    + by rewrite !filter_cons_False by done.
  - destruct (decide (c < t)%Z).
    + rewrite filter_cons_True by done. by apply sublist_cons.
    + by rewrite filter_cons_False by done.
Qed.

(** The connections of a server in the order of their arrival: the times
    at which the address was admitted are its present record, preceded by
    times that have left the window, and the sessions that dialed are
    among them. *)
Lemma serve_history (connections : list (string * Z * list bytes)) :
  forall (st : ServerState) (last : Z) (admitted dropped : list Z),
    admitted = dropped ++ record client_ip st ->
    Forall (fun t => t <= last - W)%Z dropped ->
    sorted (record client_ip st) ->
    Forall (fun t => t <= last)%Z (record client_ip st) ->
    (Z.of_nat (List.length (record client_ip st)) <= Z.max 0 limit)%Z ->
    sorted (last :: map arrival connections) ->
    let result := serve env connections st in
    let latest := List.last (map arrival connections) last in
    exists dropped' further,
      admitted ++ further = dropped' ++ record client_ip result.2 /\
      dial_times client_ip connections result.1 `sublist_of` further /\
      Forall (fun t => t <= latest - W)%Z dropped' /\
      (Z.of_nat (List.length (record client_ip result.2)) <= Z.max 0 limit)%Z.
Proof.
  induction connections as [|[[ip t] input] connections IH];
    intros st last admitted dropped Hadm Hdropped Hsorted Hpast Hlen Htimes
           result latest.
  { exists dropped, []. subst result. cbn [serve snd fst dial_times].
    by rewrite app_nil_r. }
  subst result latest. cbn [map] in *.
  change (arrival (ip, t, input)) with t in *. rewrite last_cons.
  apply StronglySorted_inv in Htimes as [Htail Hfirst].
  apply Forall_cons in Hfirst as [Hle _].
  assert (Hpast_t : Forall (fun u => u <= t)%Z (record client_ip st)).
  { eapply Forall_impl; [exact Hpast|]. simpl. lia. }
  assert (Hdropped_t : Forall (fun u => u <= t - W)%Z dropped).
  { eapply Forall_impl; [exact Hdropped|]. simpl. lia. }
  cbn [serve dial_times].
  destruct (decide (ip = client_ip)) as [-> | Hother].
  - destruct (handle_client_limited t input st) as [Hrecord Hdial].
    destruct (is_allowed_step self client_ip limiter_applies t st)
      as (d2 & kept & Hsplit & Hd2 & _ & Hrec & Hs1 & Hp1 & Hl1); try done.
    rewrite <- Hrecord in Hrec, Hs1, Hp1, Hl1.
    destruct (handle_client env client_ip t input st) as [events st1].
    cbn [fst snd] in *.
    set (ok := (is_allowed self client_ip t st).1) in *.
    destruct (IH st1 t (admitted ++ (if ok then [t] else [])) (dropped ++ d2))
      as (dropped' & further & Hadm' & Hsub & Hdropped' & Hl'); try done.
    { rewrite Hadm, Hsplit, Hrec.
      destruct ok; by rewrite ?app_nil_r, <- ?app_assoc. }
    { by apply Forall_app. }
    destruct (serve env connections st1) as [traces st2]. cbn [fst snd] in *.
    exists dropped', ((if ok then [t] else []) ++ further).
    split; [by rewrite app_assoc|]. split; [|done].
    rewrite bool_decide_eq_true_2 by done. cbn [andb].
    destruct (dialed events).
    + rewrite Hdial by done. by apply sublist_skip.
    + destruct ok; [by apply sublist_cons | done].
  - pose proof (handle_client_other ip t input st Hother) as Hrecord.
    destruct (handle_client env ip t input st) as [events st1].
    cbn [fst snd] in *.
    destruct (IH st1 t admitted dropped)
      as (dropped' & further & Hadm' & Hsub & Hdropped' & Hl');
      try (by rewrite ?Hrecord).
    destruct (serve env connections st1) as [traces st2]. cbn [fst snd] in *.
    exists dropped', further. split; [done|]. split; [|done].
    by rewrite bool_decide_eq_false_2 by done.
Qed.

End DialRate.



(** The first session of the example dials, the others do not. *)
Example dial_times_example :
  let connections :=
    [("203.0.113.5", 0%Z, [greeting [x00]; connect_request (TargetDomain (str_encode "api.telegram.org")) 443]);
     ("198.51.100.7", 5%Z, []);
     ("203.0.113.5", 10%Z, [greeting [x00]])] in
  dial_times "203.0.113.5" connections
    (serve (example_env open_config true) connections initial_state).1 = [0%Z].
Proof. by vm_compute. Qed.

(** ** The second handshake of the client *)

Section LenientClient.
Context `{Platform}.
Implicit Types (env : Env) (s : session) (data : bytes).

(** A server without authentication takes the authentication message for
    a request: it drops it when it is short, and answers with code 7
    otherwise, as the message starts with the byte 1. *)
Lemma authentication_taken_for_request env (username password : bytes)
    (tr : list event) :
  trace (_handle_socks5_request env
           {| pending := [auth_request username password]; trace := tr |})
    = tr \/
  trace (_handle_socks5_request env
           {| pending := [auth_request username password]; trace := tr |})
    = tr ++ [EvWrite (reply 7)].
Proof.
  unfold _handle_socks5_request, read. cbn [pending trace].
  destruct (List.length (take 262 (auth_request username password)) <? 10)%nat;
    [by left|].
  rewrite (u8_take 262 0) by lia.
  change (u8 (auth_request username password) 0) with 1%nat.
  change (negb (1 =? SOCKS_VERSION)%nat) with true. cbn [orb]. by right.
Qed.


End LenientClient.

(** Against a server without authentication the second handshake reads
    the reply with code 7 as a failed authentication. *)
Example lenient_client_sessions :
  _socks5_connect_with_connection
    (server_of (example_env open_config true) "203.0.113.7" 0 initial_state)
    (str_encode "admin") (str_encode "password")
    (str_encode "api.telegram.org") 443 = Raised AuthenticationFailed /\
  _socks5_connect_with_connection
    (server_of (example_env open_config true) "203.0.113.7" 0 initial_state)
    (str_encode "a") (str_encode "b")
    (str_encode "api.telegram.org") 443 = Raised StructError /\
  _socks5_connect_with_connection
    (server_of (example_env default_config true) "203.0.113.7" 0 initial_state)
    (str_encode "admin") (str_encode "password")
    (str_encode "api.telegram.org") 443 = Connected.
Proof. by vm_compute. Qed.
